(** * trezor_agent.gpg.agent: the GPG-agent emulation over the ASSUAN line protocol

    A shallow embedding of [src/trezor_agent/gpg/agent.py].  Python 2 byte
    strings are [string] (a list of 8-bit [ascii]); Python integers that
    carry signature values are [N]; the side effects of a call (socket
    traffic, log records, collaborator calls) are recorded in order in a
    trace of [event]s; exceptions are values of [exn]. *)

From Stdlib Require Import String Ascii List NArith Arith Bool Lia.
Import ListNotations.
Local Open Scope string_scope.
Local Open Scope list_scope.

(** ** Characters of the wire format *)

Definition LF : ascii := "010"%char.
Definition CR : ascii := "013"%char.
Definition PERCENT : ascii := "%"%char.
Definition NUL : ascii := "000"%char.
Definition SPACE : ascii := " "%char.

(** Python's [ord]. *)
Definition ord (c : ascii) : N := N_of_ascii c.

(** ** The wire codec *)

Module Codec.

(** [str.replace(old, new)]: every non-overlapping occurrence of [old],
    leftmost first, is replaced.  [skip] counts the characters of an
    occurrence already matched that are still to be dropped. *)
Fixpoint replace_from (old new : string) (skip : nat) (s : string) : string :=
  match s with
  | EmptyString => EmptyString
  | String c s' =>
      match skip with
      | S k => replace_from old new k s'
      | O =>
          if prefix old s
          then new ++ replace_from old new (pred (String.length old)) s'
          else String c (replace_from old new O s')
      end
  end.

(** With an empty pattern Python inserts [new] before every character and
    at the end. *)
Fixpoint replace_empty (new : string) (s : string) : string :=
  match s with
  | EmptyString => new
  | String c s' => new ++ String c (replace_empty new s')
  end.

Definition replace (old new : string) (s : string) : string :=
  match old with
  | EmptyString => replace_empty new s
  | String _ _ => replace_from old new O s
  end.

(** The format specification [X]: uppercase hexadecimal digits. *)
Definition hex_digit (n : N) : ascii :=
  match String.get (N.to_nat n) "0123456789ABCDEF" with
  | Some c => c
  | None => "?"%char
  end.

Fixpoint format_X_aux (fuel : nat) (n : N) (acc : string) : string :=
  match fuel with
  | O => acc
  | S k =>
      let acc' := String (hex_digit (n mod 16)) acc in
      if (n / 16 =? 0)%N then acc' else format_X_aux k (n / 16) acc'
  end.

Definition format_X (n : N) : string :=
  format_X_aux (S (N.to_nat (N.log2 n))) n EmptyString.

(** Zero padding to a minimal width (the [02] of [{:02X}]). *)
Fixpoint zeros (k : nat) : string :=
  match k with
  | O => EmptyString
  | S k' => String "0"%char (zeros k')
  end.

Definition format_02X (n : N) : string :=
  let digits := format_X n in
  zeros (2 - String.length digits) ++ digits.

(** ['%{:02X}'.format(ord(c))] *)
Definition escape_code (c : ascii) : string :=
  String PERCENT (format_02X (ord c)).

(** [serialize]: the loop over ['%', '\n', '\r'], each round rebinding
    [data] to the result of [data.replace]. *)
Definition serialize (data : string) : string :=
  fold_left
    (fun data c => replace (String c EmptyString) (escape_code c) data)
    [PERCENT; LF; CR]
    data.

(** Modelled from the spec: [util.num2bytes] is not part of the sources at
    hand; the spec describes its result as a fixed-width big-endian
    unsigned integer ("two 32-byte big-endian integers").  The bytes are
    produced least significant first and reversed. *)
Fixpoint num2bytes_lsb (value : N) (size : nat) : list ascii :=
  match size with
  | O => []
  | S k => ascii_of_N (N.land value 255) :: num2bytes_lsb (N.shiftr value 8) k
  end.

Definition num2bytes (value : N) (size : nat) : string :=
  string_of_list_ascii (rev (num2bytes_lsb value size)).

(** [sig_encode] *)
Definition sig_encode (r s : N) : string :=
  let r := serialize (num2bytes r 32) in
  let s := serialize (num2bytes s 32) in
  "(7:sig-val(5:ecdsa(1:r32:" ++ r ++ ")(1:s32:" ++ s ++ ")))" ++ String LF EmptyString.

(** The escape function as the specification words it: one pass over the
    original text, each occurrence of the percent sign, line feed or
    carriage return replaced by the percent sign and the two uppercase
    hexadecimal digits of its code. *)
Definition reserved (c : ascii) : bool :=
  Ascii.eqb c PERCENT || Ascii.eqb c LF || Ascii.eqb c CR.

Definition percent_XX (c : ascii) : string :=
  String PERCENT
    (String (hex_digit (ord c / 16)) (String (hex_digit (ord c mod 16)) EmptyString)).

Fixpoint Escape (text : string) : string :=
  match text with
  | EmptyString => EmptyString
  | String c rest =>
      if reserved c then percent_XX c ++ Escape rest
      else String c (Escape rest)
  end.

(** [line.split(sep)] with a one-character separator: the fields between
    the separators, empty ones included; never an empty list. *)
Fixpoint split (sep : ascii) (s : string) : list string :=
  match s with
  | EmptyString => [EmptyString]
  | String c rest =>
      if Ascii.eqb c sep then EmptyString :: split sep rest
      else
        match split sep rest with
        | [] => [String c EmptyString]
        | w :: ws => String c w :: ws
        end
  end.

(** [binascii.unhexlify]: pairs of hexadecimal digits, either case; an odd
    length or a character that is no digit is an error. *)
Definition hex_value (c : ascii) : option N :=
  let n := ord c in
  if ((48 <=? n) && (n <=? 57))%N then Some (n - 48)%N
  else if ((97 <=? n) && (n <=? 102))%N then Some (n - 87)%N
  else if ((65 <=? n) && (n <=? 70))%N then Some (n - 55)%N
  else None.

Fixpoint unhexlify (hexstr : string) : option string :=
  match hexstr with
  | EmptyString => Some EmptyString
  | String _ EmptyString => None
  | String a (String b rest) =>
      match hex_value a, hex_value b, unhexlify rest with
      | Some x, Some y, Some out => Some (String (ascii_of_N (16 * x + y)) out)
      | _, _, _ => None
      end
  end.

End Codec.

(** ** Effects: exceptions, the event trace, and the monad of a frame *)

Inductive exn : Type :=
| EOFError
| AssertionError
| ValueError
| TypeError
| IndexError
| OtherError (what : string).

Inductive result (A : Type) : Type :=
| Return (a : A)
| Raise (e : exn).
Arguments Return {A} a.
Arguments Raise {A} e.

(** Everything the agent does to the outside world, in program order. *)
Inductive event : Type :=
| Listen (path : string)                  (* unix_domain_socket_server entered *)
| Unlisten                                (* ... and left *)
| Accept                                  (* sock.accept() returned *)
| SetTimeout (t : option N)               (* conn.settimeout *)
| Send (data : string)                    (* conn.sendall *)
| Recv (line : string)                    (* keyring.recvline returned a line *)
| RecvEOF                                 (* keyring.recvline met the end of input *)
| CloseConn                               (* contextlib.closing(conn) left *)
| ExportPublicKey (user_id : option string)
| LoadPublicKey (use_custom : bool)
| FromPublicKey (user_id : string)
| Sign (digest : string)
| CloseFactory                            (* contextlib.closing(f) left *)
| LogConfig
| LogDebug (fmt arg : string)
| LogError (fmt arg : string).

Definition trace := list event.

(** A computation inside a function whose local variables are [S]: it ends
    by returning or raising, leaves the locals as they then are, and has
    produced a trace. *)
Definition M (S A : Type) : Type := S -> result A * S * trace.

Definition ret {S A} (a : A) : M S A := fun st => (Return a, st, []).

Definition raise {S A} (e : exn) : M S A := fun st => (Raise e, st, []).

Definition bind {S A B} (m : M S A) (k : A -> M S B) : M S B :=
  fun st =>
    match m st with
    | (Return a, st', t) =>
        match k a st' with
        | (r, st'', t') => (r, st'', t ++ t')
        end
    | (Raise e, st', t) => (Raise e, st', t)
    end.

Notation "x <- m ;; k" := (bind m (fun x => k))
  (at level 61, m at next level, right associativity).
Notation "m ;; k" := (bind m (fun _ => k))
  (at level 61, right associativity).

Definition emit {S} (e : event) : M S unit := fun st => (Return tt, st, [e]).

Definition get {S} : M S S := fun st => (Return st, st, []).

Definition put {S} (st : S) : M S unit := fun _ => (Return tt, st, []).

(** A call to a collaborator: the call is recorded, then its outcome is
    the outcome of the call. *)
Definition call {S A} (e : event) (r : result A) : M S A :=
  fun st => (r, st, [e]).

(** The [assert] statement. *)
Definition assert_ {S} (b : bool) : M S unit :=
  if b then ret tt else raise AssertionError.

(** [with contextlib.closing(x): body]: [x.close()] on every way out. *)
Definition closing {S A} (close : event) (body : M S A) : M S A :=
  fun st =>
    match body st with
    | (r, st', t) => (r, st', t ++ [close])
    end.

Definition outcome {S A} (x : result A * S * trace) : result A := fst (fst x).
Definition locals {S A} (x : result A * S * trace) : S := snd (fst x).
Definition events {S A} (x : result A * S * trace) : trace := snd x.

(** ** The collaborators

    [keyring], [decode] and [encode] are other modules of the package; the
    agent only calls them, so they are an interface here. *)
Class Collaborators : Type := {
  PublicKey : Type;
  Factory : Type;
  (* keyring.export_public_key(user_id=...) *)
  export_public_key : option string -> result string;
  (* decode.load_public_key(blob, use_custom=...) *)
  load_public_key : string -> bool -> result PublicKey;
  (* pubkey['user_id'] *)
  pubkey_user_id : PublicKey -> string;
  (* encode.Factory.from_public_key(pubkey=..., user_id=...) *)
  from_public_key : PublicKey -> string -> result Factory;
  (* f.pubkey.keygrip *)
  factory_keygrip : Factory -> string;
  (* f.conn.sign(digest) *)
  conn_sign : Factory -> string -> result (N * N)
}.

(** ** The agent *)

Module Agent.
Import Codec.

(** The local variables of [handle_connection]. *)
Record Session : Type := mkSession {
  keygrip : option string;
  digest : option string;
  algo : option string
}.

(** [x == '8'] for an [x] that is [None] or a string. *)
Definition is_str (x : option string) (lit : string) : bool :=
  match x with
  | Some v => String.eqb v lit
  | None => false
  end.

(** [binascii.unhexlify(x)]: [TypeError] for [None], for an odd length and
    for a character that is no hexadecimal digit. *)
Definition binascii_unhexlify {S} (x : option string) : M S string :=
  match x with
  | None => raise TypeError
  | Some h =>
      match unhexlify h with
      | Some b => ret b
      | None => raise TypeError
      end
  end.

(** Modelled from the spec: [keyring.recvline] is not part of the sources
    at hand.  A connection is the list of lines its client sends before it
    disconnects; a read returns the next line (event [Recv]), and a read
    past the last one is the end-of-input condition ("the client
    disconnects mid-read"): event [RecvEOF] and the [EOFError] that [main]
    catches.  The reads are written out in [command_loop]. *)
Definition connection : Type := list string.

Definition sendall {S} (data : string) : M S unit := emit (Send data).

Definition OK : string := "OK" ++ String LF EmptyString.

Section WithCollaborators.
Context {collab : Collaborators}.

(** [pksign]; it has no access to the caller's locals, whatever they are. *)
Definition pksign {S} (keygrip digest algo : option string) : M S string :=
  assert_ (is_str algo "8") ;;
  blob <- call (ExportPublicKey None) (export_public_key None) ;;
  pubkey <- call (LoadPublicKey true) (load_public_key blob true) ;;
  f <- call (FromPublicKey (pubkey_user_id pubkey))
            (from_public_key pubkey (pubkey_user_id pubkey)) ;;
  closing CloseFactory
    (grip <- binascii_unhexlify keygrip ;;
     assert_ (String.eqb (factory_keygrip f) grip) ;;
     raw <- binascii_unhexlify digest ;;
     rs <- call (Sign raw) (conn_sign f raw) ;;
     let result := sig_encode (fst rs) (snd rs) in
     emit (LogDebug "result: %r" result) ;;
     ret result).

(** The [if]/[elif] chain of [handle_connection] for one command line.
    [true]: fall through to the [sendall('OK\n')] that ends the loop body;
    [false]: the [return] of the last branch. *)
Definition dispatch (line command : string) (args : list string)
  : M Session bool :=
  if existsb (String.eqb command) ["RESET"; "OPTION"; "HAVEKEY"; "SETKEYDESC"]
  then ret true
  else if String.eqb command "GETINFO"
  then sendall ("D 2.1.11" ++ String LF EmptyString) ;; ret true
  else if String.eqb command "AGENT_ID"
  then sendall ("D TREZOR" ++ String LF EmptyString) ;; ret true
  else if String.eqb command "SIGKEY"
  then
    match args with
    | [k] =>
        st <- get ;;
        put (mkSession (Some k) (digest st) (algo st)) ;; ret true
    | _ => raise ValueError
    end
  else if String.eqb command "SETHASH"
  then
    match args with
    | [a; d] =>
        st <- get ;;
        put (mkSession (keygrip st) (Some d) (Some a)) ;; ret true
    | _ => raise ValueError
    end
  else if String.eqb command "PKSIGN"
  then
    st <- get ;;
    sig <- pksign (keygrip st) (digest st) (algo st) ;;
    sendall ("D " ++ sig) ;; ret true
  else
    emit (LogError "unknown request: %r" line) ;; ret false.

(** One round of the [while True] loop once a line has been read: split,
    dispatch, and the closing [OK] unless the branch returned. *)
Definition handle_line (line : string) : M Session bool :=
  match split SPACE line with
  | [] => raise IndexError
  | command :: args =>
      go_on <- dispatch line command args ;;
      if go_on then sendall OK ;; ret true else ret false
  end.

(** The [while True] loop, over what the client still has to send; its
    first statement is the [keyring.recvline] read. *)
Fixpoint command_loop (conn : connection) : M Session unit :=
  match conn with
  | [] => emit RecvEOF ;; raise EOFError
  | line :: rest =>
      emit (Recv line) ;;
      go_on <- handle_line line ;;
      if go_on then command_loop rest else ret tt
  end.

(** [handle_connection]: the three locals start as [None]. *)
Definition handle_connection (conn : connection) : result unit * Session * trace :=
  (sendall OK ;; command_loop conn) (mkSession None None None).

(** How [main] can end.  [Waiting]: [sock.accept()] is blocked, the server
    is alive and nobody connects.  [Returned]: [main] ran to its end.
    [Crashed]: an exception left [main]. *)
Inductive ending : Type :=
| Waiting
| Returned
| Crashed (e : exn).

(** [os.path.expanduser]: the tilde at the head of the path stands for the
    home directory. *)
Definition expanduser (home path : string) : string :=
  match path with
  | String "~"%char rest => home ++ rest
  | _ => path
  end.

(** [yield_connections], one resumption of the generator: what it does
    from the top of its [while True] to the [yield] when a client is there
    to be accepted, and what it does when none is ([sock.accept()] does not
    return). *)
Definition yield_connections (sockname : string) (client : bool) : trace :=
  if client then
    [LogDebug "waiting for connection on %s" sockname;
     Accept;
     SetTimeout None;
     LogDebug "accepted connection on %s" sockname]
  else [LogDebug "waiting for connection on %s" sockname].

(** The [for conn in yield_connections(sock)] loop of [main]; [pending]
    are the clients that will connect, in order.  The handler returned:
    next round.  [EOFError]: the [break].  Another exception: it leaves the
    loop.  The connection is closed on each of these ways. *)
Fixpoint accept_loop (sockname : string) (pending : list connection) : ending * trace :=
  match pending with
  | [] => (Waiting, yield_connections sockname false)
  | conn :: later =>
      let handled := handle_connection conn in
      let t := yield_connections sockname true ++ events handled ++ [CloseConn] in
      match outcome handled with
      | Return _ =>
          match accept_loop sockname later with
          | (e, t') => (e, t ++ t')
          end
      | Raise EOFError => (Returned, t)
      | Raise e => (Crashed e, t)
      end
  end.

(** [main]; the listening socket is released on every way out. *)
Definition main (home : string) (pending : list connection) : ending * trace :=
  let sock_path := expanduser home "~/.gnupg/S.gpg-agent" in
  match accept_loop sock_path pending with
  | (Waiting, t) => (Waiting, [LogConfig; Listen sock_path] ++ t)
  | (e, t) => (e, [LogConfig; Listen sock_path] ++ t ++ [Unlisten])
  end.

End WithCollaborators.

(** A test double: one key whose keygrip is the two bytes 0xAB 0xCD, and
    a device that answers every digest with the signature (1, 2). *)
Definition grip_abcd : string :=
  String (ascii_of_N 171) (String (ascii_of_N 205) EmptyString).

Definition double : Collaborators := {|
  PublicKey := string;
  Factory := string;
  export_public_key := fun user_id =>
    match user_id with
    | None => Return "blob"
    | Some _ => Raise (OtherError "no such key")
    end;
  load_public_key := fun blob _ => Return blob;
  pubkey_user_id := fun _ => "alice";
  from_public_key := fun pubkey _ => Return pubkey;
  factory_keygrip := fun _ => grip_abcd;
  conn_sign := fun _ _ => Return (1%N, 2%N)
|}.

End Agent.

(** ** Observations

    What the statements below say about strings, traces and sessions:
    none of this is part of the program. *)

Import Codec.
Import Agent.

(** Replacing a one-character pattern is a character-wise substitution. *)
Fixpoint subst_char (c : ascii) (new : string) (s : string) : string :=
  match s with
  | EmptyString => EmptyString
  | String x rest =>
      if Ascii.eqb x c then new ++ subst_char c new rest
      else String x (subst_char c new rest)
  end.

(** Characters of a string, for statements about what occurs in it. *)
Definition chars (s : string) : list ascii := list_ascii_of_string s.

(** A run of [k] zero bytes. *)
Fixpoint nul_bytes (k : nat) : string :=
  match k with
  | O => EmptyString
  | S k' => String NUL (nul_bytes k')
  end.

Definition lacks (c : ascii) (lit : string) : bool :=
  forallb (fun x => negb (Ascii.eqb x c)) (chars lit).

Definition noop_commands : list string :=
  ["RESET"; "OPTION"; "HAVEKEY"; "SETKEYDESC"].

Definition recognized_commands : list string :=
  noop_commands ++ ["GETINFO"; "AGENT_ID"; "SIGKEY"; "SETHASH"; "PKSIGN"].

(** What a trace sent to the client, in order. *)
Fixpoint sent (t : trace) : list string :=
  match t with
  | [] => []
  | Send data :: t' => data :: sent t'
  | _ :: t' => sent t'
  end.

(** The calls a trace made to the key registry and to the signing device. *)
Fixpoint backend_calls (t : trace) : trace :=
  match t with
  | [] => []
  | ExportPublicKey u :: t' => ExportPublicKey u :: backend_calls t'
  | LoadPublicKey b :: t' => LoadPublicKey b :: backend_calls t'
  | FromPublicKey u :: t' => FromPublicKey u :: backend_calls t'
  | Sign d :: t' => Sign d :: backend_calls t'
  | _ :: t' => backend_calls t'
  end.

(** The connections a trace accepted. *)
Fixpoint accepted (t : trace) : nat :=
  match t with
  | [] => 0
  | Accept :: t' => S (accepted t')
  | _ :: t' => accepted t'
  end.

(** The lines of [pre] were all handled and acknowledged: each round of
    the loop ran to its closing [OK].  The result is the locals and the
    trace at that point. *)
Fixpoint acknowledged {collab : Collaborators} (pre : list string) (st : Session)
  : option (Session * trace) :=
  match pre with
  | [] => Some (st, [])
  | line :: pre' =>
      match handle_line line st with
      | (Return true, st', t) =>
          match acknowledged pre' st' with
          | Some (st'', t') => Some (st'', Recv line :: t ++ t')
          | None => None
          end
      | _ => None
      end
  end.

Definition fresh : Session := mkSession None None None.

(** A session with a key, a digest and the algorithm '8' staged. *)
Definition staged : Session := mkSession (Some "ABCD") (Some "00FF") (Some "8").

(** The bytes that [binascii.unhexlify] gives for a local that is [None]
    or a string, when it gives any. *)
Definition decoded (x : option string) : option string :=
  match x with
  | Some h => unhexlify h
  | None => None
  end.

(** The body of the [with] block, once the factory [f] is there. *)
Definition sign_block {collab : Collaborators} {S} (f : Factory) (kg dg : option string) : M S string :=
  grip <- binascii_unhexlify kg ;;
  assert_ (String.eqb (factory_keygrip f) grip) ;;
  raw <- binascii_unhexlify dg ;;
  rs <- call (Sign raw) (conn_sign f raw) ;;
  let result := sig_encode (fst rs) (snd rs) in
  emit (LogDebug "result: %r" result) ;;
  ret result.

(** The key resolution at the head of [pksign]: the registry is asked for
    the key of the identity [None], and the factory is made from it. *)
Definition resolve_default {collab : Collaborators} : result Factory * trace :=
  match export_public_key None with
  | Raise e => (Raise e, [ExportPublicKey None])
  | Return blob =>
      match load_public_key blob true with
      | Raise e => (Raise e, [ExportPublicKey None; LoadPublicKey true])
      | Return pubkey =>
          (from_public_key pubkey (pubkey_user_id pubkey),
           [ExportPublicKey None; LoadPublicKey true;
            FromPublicKey (pubkey_user_id pubkey)])
      end
  end.

(** Events that [pksign] can produce: calls to the registry and to the
    device, the release of the factory, a debug record. *)
Definition is_backend (e : event) : bool :=
  match e with
  | ExportPublicKey _ | LoadPublicKey _ | FromPublicKey _ | Sign _
  | CloseFactory | LogDebug _ _ => true
  | _ => false
  end.

(** The command token of a line: [parts[0]]. *)
Definition command_of (line : string) : string :=
  hd EmptyString (split SPACE line).

(** The path [main] listens on. *)
Definition sock_path (home : string) : string :=
  expanduser home "~/.gnupg/S.gpg-agent".

(** Two clients: the first connects and disconnects at once, the second
    would ask for the version. *)
Definition two_clients : list connection := [[]; ["GETINFO"]].

(** Further observations, for the properties beyond the claims. *)

(** The reserved characters of a text, counted. *)
Fixpoint reserved_count (text : string) : nat :=
  match text with
  | EmptyString => 0
  | String c rest => (if reserved c then 1 else 0) + reserved_count rest
  end.

(** The S-expression of a signature before any escaping. *)
Definition raw_sexp (r s : N) : string :=
  ("(7:sig-val(5:ecdsa(1:r32:" ++ num2bytes r 32 ++ ")(1:s32:" ++ num2bytes s 32 ++ ")))")%string.

(** How often the factory was released in a trace. *)
Fixpoint releases (t : trace) : nat :=
  match t with
  | [] => 0
  | CloseFactory :: t' => S (releases t')
  | _ :: t' => releases t'
  end.

(** The digests a trace handed to the device, in order. *)
Fixpoint signed (t : trace) : list string :=
  match t with
  | [] => []
  | Sign d :: t' => d :: signed t'
  | _ :: t' => signed t'
  end.

(** What a command with its arguments stages in the session: SIGKEY with
    one argument the key, SETHASH with two the algorithm and the digest,
    anything else nothing. *)
Definition stage_parts (command : string) (args : list string) (st : Session) : Session :=
  if String.eqb command "SIGKEY" then
    match args with
    | [k] => mkSession (Some k) (digest st) (algo st)
    | _ => st
    end
  else if String.eqb command "SETHASH" then
    match args with
    | [a; d] => mkSession (keygrip st) (Some d) (Some a)
    | _ => st
    end
  else st.

Definition stage (st : Session) (line : string) : Session :=
  match split SPACE line with
  | [] => st
  | command :: args => stage_parts command args st
  end.

(** The replies that carry data. *)
Definition data_reply (d : string) : Prop :=
  d = ("D 2.1.11" ++ String LF EmptyString)%string \/
  d = ("D TREZOR" ++ String LF EmptyString)%string \/
  exists r s : N, d = ("D " ++ sig_encode r s)%string.

(** How often a character occurs in a string. *)
Fixpoint occurrences (c : ascii) (s : string) : nat :=
  match s with
  | EmptyString => 0
  | String x rest => (if Ascii.eqb x c then 1 else 0) + occurrences c rest
  end.

(** Events of a session: traffic on its connection, the error log, and
    what [pksign] does. *)
Definition on_connection (e : event) : bool :=
  match e with
  | Send _ | Recv _ | RecvEOF | LogError _ _ => true
  | _ => is_backend e
  end.

(** The connections a trace closed. *)
Fixpoint closed (t : trace) : nat :=
  match t with
  | [] => 0
  | CloseConn :: t' => S (closed t')
  | _ :: t' => closed t'
  end.

(** The connections a trace freed of their timeout. *)
Fixpoint untimed (t : trace) : nat :=
  match t with
  | [] => 0
  | SetTimeout None :: t' => S (untimed t')
  | _ :: t' => untimed t'
  end.

(** A session that stages twice, signs and asks for the version. *)
Definition busy_session : list string :=
  ["SIGKEY 0000"; "SETHASH 2 AA"; "RESET"; "SIGKEY ABCD"; "SETHASH 8 00FF";
   "PKSIGN x"; "GETINFO"].

(** Observations on the rounds of a connection. *)

(** A round on [command] with [args] in the session [st] runs to its end:
    the four no-ops, GETINFO and AGENT_ID always, SIGKEY with one argument,
    SETHASH with two, PKSIGN when [pksign] returns. *)
Definition completes {collab : Collaborators}
    (command : string) (args : list string) (st : Session) : Prop :=
  In command noop_commands \/ command = "GETINFO" \/ command = "AGENT_ID" \/
  (command = "SIGKEY" /\ length args = 1) \/
  (command = "SETHASH" /\ length args = 2) \/
  (command = "PKSIGN" /\
   exists sig : string,
     outcome (pksign (keygrip st) (digest st) (algo st) st) = Return sig).

(** The other rounds on a recognized command: SIGKEY and SETHASH whose
    arguments do not unpack, PKSIGN when [pksign] raises. *)
Definition fails {collab : Collaborators}
    (command : string) (args : list string) (st : Session) : Prop :=
  (command = "SIGKEY" /\ length args <> 1) \/
  (command = "SETHASH" /\ length args <> 2) \/
  (command = "PKSIGN" /\
   exists e : exn,
     outcome (pksign (keygrip st) (digest st) (algo st) st) = Raise e).




(** * Properties *)

(** ** Runs on concrete inputs *)

Example serialize_mixed :
  serialize ("a%" ++ String LF (String CR "b")) = "a%25%0A%0Db".
Proof. reflexivity. Qed.

Example replace_general : replace "ab" "X" "cababbab" = "cXXbX".
Proof. reflexivity. Qed.

Example replace_overlap : replace "aa" "b" "aaaaa" = "bba".
Proof. reflexivity. Qed.

Example replace_nothing : replace "" "-" "abc" = "-a-b-c-".
Proof. reflexivity. Qed.

Example format_02X_runs :
  format_02X 255 = "FF" /\ format_02X 4096 = "1000" /\ format_02X 0 = "00".
Proof. repeat split; reflexivity. Qed.

Example unhexlify_runs :
  unhexlify "0aFf" = Some (String (ascii_of_N 10) (String (ascii_of_N 255) ""))
  /\ unhexlify "abc" = None /\ unhexlify "zz" = None.
Proof. repeat split; reflexivity. Qed.

Example num2bytes_258 :
  num2bytes 258 3 = String NUL (String (ascii_of_N 1) (String (ascii_of_N 2) "")).
Proof. reflexivity. Qed.

Example split_runs :
  split SPACE "SETHASH 8 00FF" = ["SETHASH"; "8"; "00FF"] /\
  split SPACE "" = [""] /\ split SPACE "a  b" = ["a"; ""; "b"].
Proof. repeat split; reflexivity. Qed.

(** The whole exchange of a signature against the test double. *)
Example signing_session :
  handle_connection (collab := double) ["SIGKEY ABCD"; "SETHASH 8 00FF"; "PKSIGN"]
  = (Raise EOFError, staged,
     [Send OK;
      Recv "SIGKEY ABCD"; Send OK;
      Recv "SETHASH 8 00FF"; Send OK;
      Recv "PKSIGN";
      ExportPublicKey None; LoadPublicKey true; FromPublicKey "alice";
      Sign (String NUL (String (ascii_of_N 255) ""));
      LogDebug "result: %r" (sig_encode 1 2);
      CloseFactory;
      Send ("D " ++ sig_encode 1 2); Send OK;
      RecvEOF]).
Proof. vm_compute. reflexivity. Qed.

Example wrong_key_is_refused :
  outcome (handle_connection (collab := double) ["SIGKEY 0000"; "SETHASH 8 00FF"; "PKSIGN"])
  = Raise AssertionError.
Proof. vm_compute. reflexivity. Qed.

(** ** The wire codec *)

Section CodecFacts.

Lemma prefix_empty (s : string) : prefix EmptyString s = true.
Proof. destruct s; reflexivity. Qed.

Lemma replace_one_char (c : ascii) (new s : string) :
  replace (String c EmptyString) new s = subst_char c new s.
Proof.
  unfold replace.
  induction s as [|x rest IH]; [reflexivity|].
  cbn [replace_from subst_char prefix String.length pred].
  destruct (ascii_dec c x) as [->|ne].
  - rewrite prefix_empty, Ascii.eqb_refl, IH. reflexivity.
  - destruct (Ascii.eqb_spec x c) as [e|_]; [congruence|].
    now rewrite IH.
Qed.

Lemma string_app_assoc (a b c : string) :
  ((a ++ b) ++ c = a ++ (b ++ c))%string.
Proof.
  induction a as [|x a IH]; [reflexivity|].
  cbn [append]. now rewrite IH.
Qed.

Lemma subst_char_app (c : ascii) (new a b : string) :
  subst_char c new (a ++ b) = (subst_char c new a ++ subst_char c new b)%string.
Proof.
  induction a as [|x a IH]; [reflexivity|].
  change (String x a ++ b)%string with (String x (a ++ b)%string).
  cbn [subst_char].
  destruct (Ascii.eqb x c).
  - now rewrite IH, string_app_assoc.
  - now rewrite IH.
Qed.

Lemma serialize_unfold (data : string) :
  serialize data =
  subst_char CR (escape_code CR)
    (subst_char LF (escape_code LF)
       (subst_char PERCENT (escape_code PERCENT) data)).
Proof.
  unfold serialize. cbn [fold_left].
  now rewrite !replace_one_char.
Qed.

(** The format [{:02X}] of a character code is its two hexadecimal digits. *)
Lemma escape_code_percent_XX (c : ascii) : escape_code c = percent_XX c.
Proof.
  destruct c as [[] [] [] [] [] [] [] []]; vm_compute; reflexivity.
Qed.

(** The three rounds of [serialize] amount to the one pass of [Escape]. *)
Lemma serialize_Escape (data : string) : serialize data = Escape data.
Proof.
  rewrite serialize_unfold.
  induction data as [|c rest IH]; [reflexivity|].
  cbn [subst_char Escape].
  unfold reserved.
  destruct (Ascii.eqb_spec c PERCENT) as [->|n1].
  - rewrite !subst_char_app, IH, <- escape_code_percent_XX. reflexivity.
  - cbn [subst_char orb].
    destruct (Ascii.eqb_spec c LF) as [->|n2].
    + rewrite !subst_char_app, IH, <- escape_code_percent_XX. reflexivity.
    + cbn [subst_char orb].
      destruct (Ascii.eqb_spec c CR) as [->|n3].
      * rewrite IH, <- escape_code_percent_XX. reflexivity.
      * now rewrite IH.
Qed.

Lemma chars_app (a b : string) : chars (a ++ b) = chars a ++ chars b.
Proof.
  unfold chars. induction a as [|x a IH]; [reflexivity|].
  cbn. now rewrite IH.
Qed.

Lemma percent_XX_no_break (c : ascii) :
  reserved c = true -> ~ In LF (chars (percent_XX c)) /\ ~ In CR (chars (percent_XX c)).
Proof.
  unfold reserved. intros H.
  apply orb_true_iff in H as [H|H]; [apply orb_true_iff in H as [H|H]|];
    apply Ascii.eqb_eq in H; subst c;
    split; cbn; intros F; repeat (destruct F as [F|F]; [discriminate F|]); exact F.
Qed.

Lemma reserved_LF_CR (c : ascii) : reserved c = false -> c <> LF /\ c <> CR.
Proof.
  unfold reserved. intros H.
  apply orb_false_iff in H as [H H3]. apply orb_false_iff in H as [_ H2].
  apply Ascii.eqb_neq in H2, H3. now split.
Qed.

Lemma Escape_no_break (text : string) :
  ~ In LF (chars (Escape text)) /\ ~ In CR (chars (Escape text)).
Proof.
  induction text as [|c rest [IHl IHc]]; [split; intros []|].
  cbn [Escape]. destruct (reserved c) eqn:R.
  - destruct (percent_XX_no_break c R) as [Pl Pc].
    rewrite chars_app. split; intros F; apply in_app_or in F; tauto.
  - destruct (reserved_LF_CR c R) as [nl nc].
    split; intros [F|F]; auto.
Qed.

End CodecFacts.

(** C4: for every input, [serialize] replaces each percent sign, line feed
    and carriage return by the percent sign and the two uppercase
    hexadecimal digits of its code, and agrees with a single pass over the
    original text (a percent sign put in by a substitution is never escaped
    again); the empty string stays empty, the percent sign alone becomes
    "%25", and "a", line feed, "b" becomes "a%0Ab". *)
Theorem serialize_single_pass_escape :
  (forall data : string, serialize data = Escape data) /\
  (percent_XX PERCENT = "%25" /\ percent_XX LF = "%0A" /\ percent_XX CR = "%0D") /\
  serialize "" = "" /\
  serialize "%" = "%25" /\
  serialize (String "a" (String LF "b")) = "a%0Ab".
Proof.
  split; [exact serialize_Escape|].
  repeat split; reflexivity.
Qed.

(** C5: the signature r = 0, s = 0 is encoded, byte for byte, as the fixed
    framing with the tags sig-val, ecdsa, r and s and the length 32 around
    two runs of 32 zero bytes, ended by a line feed. *)
Theorem sig_encode_zero_golden :
  sig_encode 0 0 =
  ("(7:sig-val(5:ecdsa(1:r32:" ++ nul_bytes 32 ++ ")(1:s32:" ++ nul_bytes 32
     ++ ")))" ++ String LF EmptyString)%string.
Proof. vm_compute. reflexivity. Qed.

Section FramingFacts.

Lemma split_terminated (sep : ascii) (s : string) :
  ~ In sep (chars s) ->
  split sep (s ++ String sep EmptyString) = [s; EmptyString].
Proof.
  induction s as [|c rest IH]; cbn [chars list_ascii_of_string In append split].
  - intros _. now rewrite Ascii.eqb_refl.
  - intros H.
    destruct (Ascii.eqb_spec c sep) as [e|_]; [tauto|].
    rewrite IH; [reflexivity|]. intros F. apply H. now right.
Qed.

Lemma serialize_no_break (data : string) :
  ~ In LF (chars (serialize data)) /\ ~ In CR (chars (serialize data)).
Proof. rewrite serialize_Escape. apply Escape_no_break. Qed.

End FramingFacts.

Section DataLineFacts.

Lemma app_no_char (c : ascii) (a b : string) :
  ~ In c (chars a) -> ~ In c (chars b) -> ~ In c (chars (a ++ b)).
Proof.
  intros Ha Hb F. rewrite chars_app in F.
  apply in_app_or in F. tauto.
Qed.

Lemma lacks_sound (c : ascii) (lit : string) :
  lacks c lit = true -> ~ In c (chars lit).
Proof.
  unfold lacks. intros L F.
  rewrite forallb_forall in L. specialize (L _ F).
  now rewrite Ascii.eqb_refl in L.
Qed.

Lemma app_shift_last (a b c d e f g : string) :
  (a ++ (b ++ c ++ d ++ e ++ f ++ g)
   = (a ++ b ++ c ++ d ++ e ++ f) ++ g)%string.
Proof. now rewrite !string_app_assoc. Qed.

End DataLineFacts.

(** C9: the output of [serialize] holds no line feed and no carriage
    return, for every input; so a data line made of "D ", an escaped
    payload and the closing line feed is one line of the protocol, and so
    is the data line that carries an encoded signature. *)
Theorem serialize_keeps_line_framing :
  (forall data : string,
     ~ In LF (chars (serialize data)) /\ ~ In CR (chars (serialize data))) /\
  (forall data : string,
     split LF (("D " ++ serialize data) ++ String LF EmptyString)
     = [("D " ++ serialize data)%string; EmptyString]) /\
  (forall r s : N,
     exists body : string,
       ("D " ++ sig_encode r s = body ++ String LF EmptyString)%string /\
       split LF ("D " ++ sig_encode r s) = [body; EmptyString]).
Proof.
  split; [exact serialize_no_break|]. split.
  - intros data. apply split_terminated.
    apply app_no_char; [apply lacks_sound; reflexivity|apply serialize_no_break].
  - intros r s.
    pose (body := ("D " ++ "(7:sig-val(5:ecdsa(1:r32:" ++ serialize (num2bytes r 32)
                     ++ ")(1:s32:" ++ serialize (num2bytes s 32) ++ ")))")%string).
    assert (E : ("D " ++ sig_encode r s = body ++ String LF EmptyString)%string)
      by apply app_shift_last.
    exists body. split; [exact E|].
    rewrite E. apply split_terminated. unfold body.
    repeat (apply app_no_char;
            [first [apply serialize_no_break | apply lacks_sound; reflexivity]|]).
    apply lacks_sound; reflexivity.
Qed.

(** ** The session *)

Section SessionFacts.
Context {collab : Collaborators}.

Lemma eqb_of_neq (a b : string) : a <> b -> String.eqb a b = false.
Proof. intros H. now apply String.eqb_neq. Qed.

Lemma not_noop (command : string) :
  ~ In command noop_commands ->
  existsb (String.eqb command) ["RESET"; "OPTION"; "HAVEKEY"; "SETKEYDESC"] = false.
Proof.
  intros H. apply not_true_is_false. intros E.
  apply existsb_exists in E as (x & Hx & E).
  apply String.eqb_eq in E. subst x. exact (H Hx).
Qed.

Lemma is_noop (command : string) :
  In command noop_commands ->
  existsb (String.eqb command) ["RESET"; "OPTION"; "HAVEKEY"; "SETKEYDESC"] = true.
Proof.
  intros H. apply existsb_exists. exists command.
  split; [exact H|apply String.eqb_refl].
Qed.

(** A no-op command returns at once, whatever the arguments. *)
Lemma dispatch_noop (line command : string) (args : list string) (st : Session) :
  In command noop_commands ->
  dispatch line command args st = (Return true, st, []).
Proof.
  intros H. unfold dispatch. now rewrite (is_noop _ H).
Qed.

(** The last branch: the command is logged and the handler returns. *)
Lemma dispatch_unknown (line command : string) (args : list string) (st : Session) :
  ~ In command recognized_commands ->
  dispatch line command args st
  = (Return false, st, [LogError "unknown request: %r" line]).
Proof.
  intros H. unfold dispatch.
  rewrite not_noop by (intros F; apply H; apply in_or_app; now left).
  rewrite !eqb_of_neq; [reflexivity|..];
    intros ->; apply H; apply in_or_app; right; cbn; tauto.
Qed.

(** [PKSIGN] with an algorithm that is not '8': the assertion at the top
    of [pksign] fails and nothing else has happened. *)
Lemma pksign_wrong_algo {S} (kg dg al : option string) (st : S) :
  al <> Some "8" ->
  pksign kg dg al st = (Raise AssertionError, st, []).
Proof.
  intros H. unfold pksign.
  assert (E : is_str al "8" = false).
  { destruct al as [v|]; [|reflexivity]. cbn [is_str].
    apply eqb_of_neq. intros ->. now apply H. }
  unfold bind at 1. now rewrite E.
Qed.

Lemma dispatch_PKSIGN (line : string) (args : list string) (st : Session) :
  dispatch line "PKSIGN" args st
  = match pksign (keygrip st) (digest st) (algo st) st with
    | (Return sig, st', t) => (Return true, st', t ++ [Send ("D " ++ sig)])
    | (Raise e, st', t) => (Raise e, st', t)
    end.
Proof.
  unfold dispatch. cbn -[pksign]. unfold bind, get. cbn -[pksign].
  destruct (pksign (keygrip st) (digest st) (algo st) st) as [[[sig|e] st'] t];
    reflexivity.
Qed.

Lemma dispatch_SIGKEY (line : string) (args : list string) (st : Session) :
  dispatch line "SIGKEY" args st
  = match args with
    | [k] => (Return true, mkSession (Some k) (digest st) (algo st), [])
    | _ => (Raise ValueError, st, [])
    end.
Proof. destruct args as [|k [|k' args]]; reflexivity. Qed.

Lemma dispatch_SETHASH (line : string) (args : list string) (st : Session) :
  dispatch line "SETHASH" args st
  = match args with
    | [a; d] => (Return true, mkSession (keygrip st) (Some d) (Some a), [])
    | _ => (Raise ValueError, st, [])
    end.
Proof. destruct args as [|a [|d [|x args]]]; reflexivity. Qed.

(** [handle_line] in terms of what [dispatch] did. *)
Lemma handle_line_split (line command : string) (args : list string) (st : Session) :
  split SPACE line = command :: args ->
  handle_line line st
  = match dispatch line command args st with
    | (Return true, st', t) => (Return true, st', t ++ [Send OK])
    | (Return false, st', t) => (Return false, st', t ++ [])
    | (Raise e, st', t) => (Raise e, st', t)
    end.
Proof.
  intros H. unfold handle_line. rewrite H. unfold bind.
  destruct (dispatch line command args st) as [[[[|]|e] st'] t]; reflexivity.
Qed.

(** One round of [command_loop]. *)
Lemma command_loop_step (line : string) (rest : connection) (st : Session) :
  command_loop (line :: rest) st
  = match handle_line line st with
    | (Return true, st', t) =>
        match command_loop rest st' with
        | (r, st'', t') => (r, st'', Recv line :: t ++ t')
        end
    | (Return false, st', t) => (Return tt, st', Recv line :: t ++ [])
    | (Raise e, st', t) => (Raise e, st', Recv line :: t)
    end.
Proof.
  cbn [command_loop]. unfold bind, emit.
  destruct (handle_line line st) as [[[[|]|e] st'] t]; cbn [app];
    [destruct (command_loop rest st') as [[r st''] t']|..]; reflexivity.
Qed.

End SessionFacts.

Section ConnectionFacts.
Context {collab : Collaborators}.

Lemma command_loop_app (pre post : list string) (st st1 : Session) (t : trace) :
  acknowledged pre st = Some (st1, t) ->
  command_loop (pre ++ post) st
  = match command_loop post st1 with
    | (r, st2, t2) => (r, st2, t ++ t2)
    end.
Proof.
  revert st t. induction pre as [|line pre IH]; intros st t H.
  - cbn in H. injection H as <- <-. cbn [app].
    now destruct (command_loop post st) as [[r st2] t2].
  - cbn [acknowledged] in H.
    change ((line :: pre) ++ post) with (line :: (pre ++ post)).
    rewrite command_loop_step.
    destruct (handle_line line st) as [[[[|]|e] st'] tl]; try discriminate H.
    destruct (acknowledged pre st') as [[st'' t']|] eqn:A; [|discriminate H].
    injection H as <- <-.
    rewrite (IH _ _ A).
    destruct (command_loop post st'') as [[r st2] t2].
    cbn [app]. now rewrite app_assoc.
Qed.

(** A connection whose first lines were acknowledged goes on with the
    next line from where they left the session. *)
Lemma handle_connection_after (pre post : list string) (st1 : Session) (t : trace) :
  acknowledged pre fresh = Some (st1, t) ->
  handle_connection (pre ++ post)
  = match command_loop post st1 with
    | (r, st2, t2) => (r, st2, Send OK :: t ++ t2)
    end.
Proof.
  intros H. unfold handle_connection, bind, sendall, emit.
  fold fresh. rewrite (command_loop_app _ _ _ _ _ H).
  now destruct (command_loop post st1) as [[r st2] t2].
Qed.

Lemma sent_app (t t' : trace) : sent (t ++ t') = sent t ++ sent t'.
Proof.
  induction t as [|e t IH]; [reflexivity|].
  destruct e; cbn [app sent]; now rewrite IH.
Qed.

Lemma backend_calls_app (t t' : trace) :
  backend_calls (t ++ t') = backend_calls t ++ backend_calls t'.
Proof.
  induction t as [|e t IH]; [reflexivity|].
  destruct e; cbn [app backend_calls]; now rewrite IH.
Qed.

End ConnectionFacts.

(** C8: in every session state and for every argument list, a round that
    handles RESET, OPTION, HAVEKEY or SETKEYDESC leaves the selected key,
    the pending digest and the pending algorithm as they were and does one
    thing only: it sends the line OK. *)
Theorem noop_commands_frame {collab : Collaborators}
    (st : Session) (line command : string) (args : list string) :
  split SPACE line = command :: args ->
  In command noop_commands ->
  handle_line line st = (Return true, st, [Send OK]).
Proof.
  intros Hs Hc.
  now rewrite (handle_line_split _ _ _ _ Hs), (dispatch_noop _ _ _ _ Hc).
Qed.

Lemma noop_commands_frame_witness :
  split SPACE "OPTION display=:0 x" = "OPTION" :: ["display=:0"; "x"] /\
  In "OPTION" noop_commands /\
  handle_line (collab := double) "OPTION display=:0 x" staged
  = (Return true, staged, [Send OK]).
Proof.
  assert (Hs : split SPACE "OPTION display=:0 x" = "OPTION" :: ["display=:0"; "x"])
    by reflexivity.
  assert (Hc : In "OPTION" noop_commands) by (right; left; reflexivity).
  split; [exact Hs|]. split; [exact Hc|].
  exact (@noop_commands_frame double staged _ _ _ Hs Hc).
Defined.

(** C7: when the command token of a line is none of the nine recognized
    commands, the handler logs the line and returns: the session state is
    as before, nothing is sent, the lines that follow are never read; on a
    connection the bytes sent are the greeting and the replies to the lines
    acknowledged before, and nothing after them. *)
Theorem unknown_command_ends_session {collab : Collaborators}
    (pre rest : list string) (st1 : Session) (t : trace)
    (line command : string) (args : list string) :
  acknowledged pre fresh = Some (st1, t) ->
  split SPACE line = command :: args ->
  ~ In command recognized_commands ->
  (forall st : Session,
     command_loop (line :: rest) st
     = (Return tt, st, [Recv line; LogError "unknown request: %r" line])) /\
  handle_connection (pre ++ line :: rest)
  = (Return tt, st1,
     Send OK :: t ++ [Recv line; LogError "unknown request: %r" line]) /\
  sent (events (handle_connection (pre ++ line :: rest))) = OK :: sent t.
Proof.
  intros Ha Hs Hc.
  assert (L : forall st : Session,
             command_loop (line :: rest) st
             = (Return tt, st, [Recv line; LogError "unknown request: %r" line])).
  { intros st.
    now rewrite command_loop_step, (handle_line_split _ _ _ _ Hs),
      (dispatch_unknown _ _ _ _ Hc). }
  split; [exact L|].
  rewrite (handle_connection_after _ _ _ _ Ha), L.
  split; [reflexivity|].
  cbn [events snd sent]. rewrite sent_app. cbn [sent]. now rewrite app_nil_r.
Qed.

Lemma unknown_command_ends_session_witness :
  acknowledged (collab := double) ["GETINFO"] fresh
  = Some (fresh, [Recv "GETINFO"; Send ("D 2.1.11" ++ String LF EmptyString); Send OK]) /\
  split SPACE "FOO bar" = "FOO" :: ["bar"] /\
  ~ In "FOO" recognized_commands /\
  handle_connection (collab := double) (["GETINFO"] ++ "FOO bar" :: ["PKSIGN"])
  = (Return tt, fresh,
     Send OK
       :: [Recv "GETINFO"; Send ("D 2.1.11" ++ String LF EmptyString); Send OK]
       ++ [Recv "FOO bar"; LogError "unknown request: %r" "FOO bar"]).
Proof.
  assert (Ha : acknowledged (collab := double) ["GETINFO"] fresh
               = Some (fresh, [Recv "GETINFO"; Send ("D 2.1.11" ++ String LF EmptyString);
                               Send OK])) by reflexivity.
  assert (Hs : split SPACE "FOO bar" = "FOO" :: ["bar"]) by reflexivity.
  assert (Hc : ~ In "FOO" recognized_commands).
  { cbn. intros F. repeat (destruct F as [F|F]; [discriminate F|]). exact F. }
  split; [exact Ha|]. split; [exact Hs|]. split; [exact Hc|].
  exact (proj1 (proj2 (@unknown_command_ends_session double
                         ["GETINFO"] ["PKSIGN"] _ _ _ _ _ Ha Hs Hc))).
Defined.

Section PksignFacts.
Context {collab : Collaborators}.

Lemma binascii_unhexlify_decoded {S} (x : option string) (st : S) :
  binascii_unhexlify x st
  = match decoded x with
    | Some b => (Return b, st, [])
    | None => (Raise TypeError, st, [])
    end.
Proof.
  destruct x as [h|]; [|reflexivity].
  cbn [binascii_unhexlify decoded]. now destruct (unhexlify h).
Qed.

Lemma sign_block_cases {S} (f : Factory) (kg dg : option string) (st : S) :
  sign_block f kg dg st
  = match decoded kg with
    | None => (Raise TypeError, st, [])
    | Some grip =>
        if String.eqb (factory_keygrip f) grip then
          match decoded dg with
          | None => (Raise TypeError, st, [])
          | Some raw =>
              match conn_sign f raw with
              | Raise e => (Raise e, st, [Sign raw])
              | Return rs =>
                  (Return (sig_encode (fst rs) (snd rs)), st,
                   [Sign raw; LogDebug "result: %r" (sig_encode (fst rs) (snd rs))])
              end
          end
        else (Raise AssertionError, st, [])
    end.
Proof.
  unfold sign_block, bind.
  rewrite (binascii_unhexlify_decoded kg).
  destruct (decoded kg) as [grip|]; [|reflexivity].
  unfold assert_.
  destruct (String.eqb (factory_keygrip f) grip); [|reflexivity].
  cbn [ret]. rewrite (binascii_unhexlify_decoded dg).
  destruct (decoded dg) as [raw|]; [|reflexivity].
  unfold call. destruct (conn_sign f raw) as [rs|e]; reflexivity.
Qed.

Lemma pksign_cases {S} (kg dg al : option string) (st : S) :
  pksign kg dg al st
  = if is_str al "8" then
      match resolve_default with
      | (Raise e, t) => (Raise e, st, t)
      | (Return f, t) =>
          match sign_block f kg dg st with
          | (r, st', t') => (r, st', t ++ t' ++ [CloseFactory])
          end
      end
    else (Raise AssertionError, st, []).
Proof.
  unfold pksign, resolve_default.
  unfold bind at 1. unfold assert_ at 1.
  destruct (is_str al "8"); [|reflexivity].
  cbn [ret app]. unfold bind at 1. unfold call at 1.
  destruct (export_public_key None) as [blob|e]; [|reflexivity].
  unfold bind at 1. unfold call at 1.
  destruct (load_public_key blob true) as [pubkey|e]; [|reflexivity].
  unfold bind at 1. unfold call at 1.
  destruct (from_public_key pubkey (pubkey_user_id pubkey)) as [f|e]; [|reflexivity].
  unfold closing. fold (@sign_block collab S f kg dg).
  destruct (sign_block f kg dg st) as [[r st'] t']. reflexivity.
Qed.

Lemma sign_block_locals {S} (f : Factory) (kg dg : option string) (st : S) :
  locals (sign_block f kg dg st) = st.
Proof.
  rewrite sign_block_cases.
  destruct (decoded kg); [|reflexivity].
  destruct (String.eqb _ _); [|reflexivity].
  destruct (decoded dg) as [raw|]; [|reflexivity].
  now destruct (conn_sign f raw).
Qed.

(** [pksign] leaves the caller's locals alone. *)
Lemma pksign_locals {S} (kg dg al : option string) (st : S) :
  locals (pksign kg dg al st) = st.
Proof.
  rewrite pksign_cases.
  destruct (is_str al "8"); [|reflexivity].
  destruct resolve_default as [[f|e] t]; [|reflexivity].
  pose proof (sign_block_locals f kg dg st) as H.
  destruct (sign_block f kg dg st) as [[r st'] t']. exact H.
Qed.

End PksignFacts.

Section TraceFacts.
Context {collab : Collaborators}.

Lemma backend_sent (t : trace) : forallb is_backend t = true -> sent t = [].
Proof.
  induction t as [|e t IH]; [reflexivity|].
  cbn [forallb]. intros H. apply andb_true_iff in H as [He Ht].
  destruct e; try discriminate He; cbn [sent]; auto.
Qed.

Lemma backend_accepted (t : trace) : forallb is_backend t = true -> accepted t = 0.
Proof.
  induction t as [|e t IH]; [reflexivity|].
  cbn [forallb]. intros H. apply andb_true_iff in H as [He Ht].
  destruct e; try discriminate He; cbn [accepted]; auto.
Qed.

Lemma resolve_default_backend : forallb is_backend (snd resolve_default) = true.
Proof.
  unfold resolve_default.
  destruct (export_public_key None) as [blob|e]; [|reflexivity].
  destruct (load_public_key blob true) as [pubkey|e]; reflexivity.
Qed.

Lemma sign_block_backend {S} (f : Factory) (kg dg : option string) (st : S) :
  forallb is_backend (events (sign_block f kg dg st)) = true.
Proof.
  rewrite sign_block_cases.
  destruct (decoded kg); [|reflexivity].
  destruct (String.eqb _ _); [|reflexivity].
  destruct (decoded dg) as [raw|]; [|reflexivity].
  now destruct (conn_sign f raw).
Qed.

Lemma pksign_backend {S} (kg dg al : option string) (st : S) :
  forallb is_backend (events (pksign kg dg al st)) = true.
Proof.
  rewrite pksign_cases.
  destruct (is_str al "8"); [|reflexivity].
  pose proof resolve_default_backend as R.
  destruct resolve_default as [[f|e] t]; [|exact R].
  pose proof (sign_block_backend f kg dg st) as B.
  destruct (sign_block f kg dg st) as [[r st'] t'].
  cbn [events snd] in *. rewrite !forallb_app, R, B. reflexivity.
Qed.

Lemma accepted_app (t t' : trace) : accepted (t ++ t') = accepted t + accepted t'.
Proof.
  induction t as [|e t IH]; [reflexivity|].
  destruct e; cbn [app accepted]; now rewrite IH.
Qed.

(** The nine recognized commands, one by one. *)
Lemma recognized_cases (command : string) :
  In command recognized_commands ->
  In command noop_commands \/ command = "GETINFO" \/ command = "AGENT_ID" \/
  command = "SIGKEY" \/ command = "SETHASH" \/ command = "PKSIGN".
Proof.
  intros H. apply in_app_or in H as [H|H]; [now left|right].
  cbn in H. intuition.
Qed.

Lemma recognized_dec (command : string) :
  {In command recognized_commands} + {~ In command recognized_commands}.
Proof. apply in_dec, string_dec. Qed.

(** What one round does to the trace, command by command. *)
Lemma dispatch_events (line command : string) (args : list string) (st : Session) :
  match dispatch line command args st with
  | (r, st', t) =>
      accepted t = 0 /\
      (r = Return true ->
       sent t = [] \/
       exists (t1 : trace) (payload : string),
         t = t1 ++ [Send ("D " ++ payload)] /\ sent t1 = [])
  end.
Proof.
  destruct (recognized_dec command) as [R|U].
  - apply recognized_cases in R as [N|[->|[->|[->|[->| ->]]]]].
    + rewrite (dispatch_noop _ _ _ _ N). split; [reflexivity|now left].
    + split; [reflexivity|]. intros _. right.
      exists [], ("2.1.11" ++ String LF EmptyString)%string. now split.
    + split; [reflexivity|]. intros _. right.
      exists [], ("TREZOR" ++ String LF EmptyString)%string. now split.
    + rewrite dispatch_SIGKEY.
      destruct args as [|k [|k' args]]; (split; [reflexivity|now left]).
    + rewrite dispatch_SETHASH.
      destruct args as [|a [|d [|x args]]]; (split; [reflexivity|now left]).
    + rewrite dispatch_PKSIGN.
      pose proof (pksign_backend (keygrip st) (digest st) (algo st) st) as B.
      destruct (pksign (keygrip st) (digest st) (algo st) st) as [[[sig|e] st'] t];
        cbn [events snd] in B.
      * split.
        -- now rewrite accepted_app, (backend_accepted _ B).
        -- intros _. right. exists t, sig. split; [reflexivity|].
           now apply backend_sent.
      * split; [now apply backend_accepted|discriminate].
  - rewrite (dispatch_unknown _ _ _ _ U). split; [reflexivity|discriminate].
Qed.

Lemma split_nonempty (sep : ascii) (s : string) : split sep s <> [].
Proof.
  destruct s as [|c rest]; cbn [split]; [discriminate|].
  destruct (Ascii.eqb c sep); [discriminate|].
  destruct (split sep rest); discriminate.
Qed.

Lemma handle_line_accepted (line : string) (st : Session) :
  accepted (events (handle_line line st)) = 0.
Proof.
  destruct (split SPACE line) as [|command args] eqn:Hs;
    [now apply split_nonempty in Hs|].
  rewrite (handle_line_split _ _ _ _ Hs).
  pose proof (dispatch_events line command args st) as D.
  destruct (dispatch line command args st) as [[[[|]|e] st'] t];
    destruct D as [A _]; cbn [events snd]; rewrite ?accepted_app, A; reflexivity.
Qed.

Lemma command_loop_accepted (conn : connection) (st : Session) :
  accepted (events (command_loop conn st)) = 0.
Proof.
  revert st. induction conn as [|line rest IH]; intros st; [reflexivity|].
  rewrite command_loop_step.
  pose proof (handle_line_accepted line st) as A.
  destruct (handle_line line st) as [[[[|]|e] st'] t]; cbn [events snd] in A.
  - specialize (IH st').
    destruct (command_loop rest st') as [[r st''] t']. cbn [events snd] in *.
    cbn [accepted]. now rewrite accepted_app, A, IH.
  - cbn [events snd accepted]. now rewrite accepted_app, A.
  - exact A.
Qed.

Lemma handle_connection_accepted (conn : connection) :
  accepted (events (handle_connection conn)) = 0.
Proof.
  unfold handle_connection, bind, sendall, emit.
  pose proof (command_loop_accepted conn (mkSession None None None)) as A.
  destruct (command_loop conn (mkSession None None None)) as [[r st] t].
  exact A.
Qed.

End TraceFacts.

Section AlgoFacts.
Context {collab : Collaborators}.

(** Only [SETHASH] assigns the pending algorithm. *)
Lemma dispatch_algo (line command : string) (args : list string) (st : Session) :
  command <> "SETHASH" ->
  algo (locals (dispatch line command args st)) = algo st.
Proof.
  intros NS.
  destruct (recognized_dec command) as [R|U].
  - apply recognized_cases in R as [N|[->|[->|[->|[->| ->]]]]].
    + now rewrite (dispatch_noop _ _ _ _ N).
    + reflexivity.
    + reflexivity.
    + rewrite dispatch_SIGKEY. now destruct args as [|k [|k' args]].
    + now contradiction NS.
    + rewrite dispatch_PKSIGN.
      pose proof (pksign_locals (keygrip st) (digest st) (algo st) st) as L.
      destruct (pksign (keygrip st) (digest st) (algo st) st) as [[[sig|e] st'] t];
        cbn [locals fst snd] in *; now subst st'.
  - now rewrite (dispatch_unknown _ _ _ _ U).
Qed.

Lemma handle_line_algo (line : string) (st : Session) :
  command_of line <> "SETHASH" ->
  algo (locals (handle_line line st)) = algo st.
Proof.
  unfold command_of.
  destruct (split SPACE line) as [|command args] eqn:Hs;
    [now apply split_nonempty in Hs|].
  cbn [hd]. intros NS.
  rewrite (handle_line_split _ _ _ _ Hs).
  pose proof (dispatch_algo line command args st NS) as D.
  now destruct (dispatch line command args st) as [[[[|]|e] st'] t].
Qed.

(** Before any [SETHASH] the pending algorithm is still unset. *)
Lemma acknowledged_algo (pre : list string) (st st1 : Session) (t : trace) :
  (forall l, In l pre -> command_of l <> "SETHASH") ->
  acknowledged pre st = Some (st1, t) ->
  algo st1 = algo st.
Proof.
  revert st t. induction pre as [|line pre IH]; intros st t NS H.
  - cbn in H. now injection H as <- <-.
  - cbn [acknowledged] in H.
    pose proof (handle_line_algo line st (NS line (or_introl eq_refl))) as A.
    destruct (handle_line line st) as [[[[|]|e] st'] tl]; try discriminate H.
    destruct (acknowledged pre st') as [[st'' t']|] eqn:E; [|discriminate H].
    injection H as <- <-.
    cbn [locals fst snd] in A. rewrite <- A.
    apply (IH st' t'); [|exact E].
    intros l Hl. apply NS. now right.
Qed.

End AlgoFacts.

(** C3: when the pending algorithm is anything but '8' (in particular
    when it is unset because no SETHASH came before), PKSIGN fails on the
    assertion at the top of the signing procedure: no call to the registry
    or to the device has been made, nothing has been sent for this command,
    and what the connection has sent is the greeting and the replies to the
    lines acknowledged before. *)
Theorem pksign_unsupported_algo_fails_closed {collab : Collaborators}
    (pre rest : list string) (st1 : Session) (t : trace)
    (line : string) (args : list string) :
  acknowledged pre fresh = Some (st1, t) ->
  split SPACE line = "PKSIGN" :: args ->
  algo st1 <> Some "8" \/ (forall l, In l pre -> command_of l <> "SETHASH") ->
  pksign (keygrip st1) (digest st1) (algo st1) st1 = (Raise AssertionError, st1, []) /\
  command_loop (line :: rest) st1 = (Raise AssertionError, st1, [Recv line]) /\
  handle_connection (pre ++ line :: rest)
  = (Raise AssertionError, st1, Send OK :: t ++ [Recv line]) /\
  sent (events (handle_connection (pre ++ line :: rest))) = OK :: sent t /\
  backend_calls (events (handle_connection (pre ++ line :: rest))) = backend_calls t.
Proof.
  intros Ha Hs Hal.
  assert (A : algo st1 <> Some "8").
  { destruct Hal as [A|NS]; [exact A|].
    rewrite (acknowledged_algo _ _ _ _ NS Ha). discriminate. }
  assert (P : pksign (keygrip st1) (digest st1) (algo st1) st1
              = (Raise AssertionError, st1, []))
    by now apply pksign_wrong_algo.
  assert (L : command_loop (line :: rest) st1 = (Raise AssertionError, st1, [Recv line])).
  { now rewrite command_loop_step, (handle_line_split _ _ _ _ Hs), dispatch_PKSIGN, P. }
  split; [exact P|]. split; [exact L|].
  rewrite (handle_connection_after _ _ _ _ Ha), L.
  split; [reflexivity|].
  cbn [events snd sent backend_calls].
  rewrite sent_app, backend_calls_app. cbn [sent backend_calls].
  now rewrite !app_nil_r.
Qed.

Lemma pksign_unsupported_algo_fails_closed_witness :
  acknowledged (collab := double) ["SIGKEY ABCD"] fresh
  = Some (mkSession (Some "ABCD") None None, [Recv "SIGKEY ABCD"; Send OK]) /\
  split SPACE "PKSIGN" = "PKSIGN" :: [] /\
  handle_connection (collab := double) (["SIGKEY ABCD"] ++ "PKSIGN" :: ["GETINFO"])
  = (Raise AssertionError, mkSession (Some "ABCD") None None,
     Send OK :: [Recv "SIGKEY ABCD"; Send OK] ++ [Recv "PKSIGN"]).
Proof.
  assert (Ha : acknowledged (collab := double) ["SIGKEY ABCD"] fresh
               = Some (mkSession (Some "ABCD") None None, [Recv "SIGKEY ABCD"; Send OK]))
    by reflexivity.
  assert (Hs : split SPACE "PKSIGN" = "PKSIGN" :: []) by reflexivity.
  assert (Hal : algo (mkSession (Some "ABCD") None None) <> Some "8"
                \/ (forall l, In l ["SIGKEY ABCD"] -> command_of l <> "SETHASH"))
    by (left; discriminate).
  split; [exact Ha|]. split; [exact Hs|].
  exact (proj1 (proj2 (proj2 (@pksign_unsupported_algo_fails_closed double
                                ["SIGKEY ABCD"] ["GETINFO"] _ _ _ _ Ha Hs Hal)))).
Defined.

(** C10: SIGKEY with other than one argument, and SETHASH with other than
    two, raise on unpacking the arguments: the selected key, the pending
    digest and the pending algorithm keep the values they had, and the
    session ends on the error without the reply OK. *)
Theorem wrong_arity_aborts_unchanged {collab : Collaborators}
    (pre rest : list string) (st1 : Session) (t : trace)
    (line : string) (args : list string) :
  acknowledged pre fresh = Some (st1, t) ->
  (split SPACE line = "SIGKEY" :: args /\ length args <> 1) \/
  (split SPACE line = "SETHASH" :: args /\ length args <> 2) ->
  (forall st : Session, handle_line line st = (Raise ValueError, st, [])) /\
  (forall st : Session,
     command_loop (line :: rest) st = (Raise ValueError, st, [Recv line])) /\
  handle_connection (pre ++ line :: rest)
  = (Raise ValueError, st1, Send OK :: t ++ [Recv line]).
Proof.
  intros Ha Hc.
  assert (H : forall st : Session, handle_line line st = (Raise ValueError, st, [])).
  { intros st. destruct Hc as [[Hs Hn]|[Hs Hn]];
      rewrite (handle_line_split _ _ _ _ Hs).
    - rewrite dispatch_SIGKEY.
      destruct args as [|k [|k' args]]; [reflexivity|now contradiction Hn|reflexivity].
    - rewrite dispatch_SETHASH.
      destruct args as [|a [|d [|x args]]];
        [reflexivity|reflexivity|now contradiction Hn|reflexivity]. }
  assert (L : forall st : Session,
             command_loop (line :: rest) st = (Raise ValueError, st, [Recv line])).
  { intros st. now rewrite command_loop_step, H. }
  split; [exact H|]. split; [exact L|].
  now rewrite (handle_connection_after _ _ _ _ Ha), L.
Qed.

Lemma wrong_arity_aborts_unchanged_witness :
  acknowledged (collab := double) ["SIGKEY ABCD"] fresh
  = Some (mkSession (Some "ABCD") None None, [Recv "SIGKEY ABCD"; Send OK]) /\
  (split SPACE "SETHASH 8" = "SETHASH" :: ["8"] /\ length ["8"] <> 2) /\
  handle_connection (collab := double) (["SIGKEY ABCD"] ++ "SETHASH 8" :: ["PKSIGN"])
  = (Raise ValueError, mkSession (Some "ABCD") None None,
     Send OK :: [Recv "SIGKEY ABCD"; Send OK] ++ [Recv "SETHASH 8"]).
Proof.
  assert (Ha : acknowledged (collab := double) ["SIGKEY ABCD"] fresh
               = Some (mkSession (Some "ABCD") None None, [Recv "SIGKEY ABCD"; Send OK]))
    by reflexivity.
  assert (Hs : split SPACE "SETHASH 8" = "SETHASH" :: ["8"] /\ length ["8"] <> 2)
    by (split; [reflexivity|discriminate]).
  split; [exact Ha|]. split; [exact Hs|].
  exact (proj2 (proj2 (@wrong_arity_aborts_unchanged double
                         ["SIGKEY ABCD"] ["PKSIGN"] _ _ _ _ Ha (or_intror Hs)))).
Defined.

(** C2: the signing procedure asks the registry for the key of the
    identity [None], never for the key the client named; the named key
    takes part only in the assertion made once the key is resolved, which
    compares the keygrip of the resolved key with the hexadecimal decoding
    of the name: a signature is returned only if they are equal, and two
    names with the same decoding give the same run. *)
Theorem pksign_resolves_default_identity {collab : Collaborators} {S : Type}
    (st : S) (kg dg al : option string) :
  (forall u : option string,
     In (ExportPublicKey u) (events (pksign kg dg al st)) -> u = None) /\
  (is_str al "8" = true ->
   exists t' : trace,
     events (pksign kg dg al st) = snd resolve_default ++ t' /\
     exists t'' : trace, snd resolve_default = ExportPublicKey None :: t'') /\
  (forall sig : string,
     outcome (pksign kg dg al st) = Return sig ->
     exists f : Factory,
       fst resolve_default = Return f /\
       decoded kg = Some (factory_keygrip f)) /\
  (forall kg' : option string,
     decoded kg' = decoded kg ->
     pksign kg' dg al st = pksign kg dg al st).
Proof.
  assert (R : exists t'' : trace, snd resolve_default = ExportPublicKey None :: t'').
  { unfold resolve_default.
    destruct (export_public_key None) as [blob|e]; [|now eexists].
    destruct (load_public_key blob true) as [pubkey|e]; now eexists. }
  assert (RU : forall u, In (ExportPublicKey u) (snd resolve_default) -> u = None).
  { unfold resolve_default. intros u.
    destruct (export_public_key None) as [blob|e];
      [destruct (load_public_key blob true) as [pubkey|e]|];
      cbn [snd In]; intros F;
      repeat (destruct F as [F|F]; [congruence|]); contradiction F. }
  assert (SU : forall f u, ~ In (ExportPublicKey u) (events (sign_block f kg dg st))).
  { intros f u. rewrite sign_block_cases.
    destruct (decoded kg); [|intros []].
    destruct (String.eqb _ _); [|intros []].
    destruct (decoded dg) as [raw|]; [|intros []].
    destruct (conn_sign f raw); cbn [events snd In]; intros F;
      repeat (destruct F as [F|F]; [discriminate F|]); exact F. }
  repeat split.
  - intros u. rewrite pksign_cases.
    destruct (is_str al "8"); [|intros []].
    destruct resolve_default as [[f|e] t] eqn:E; cbn [snd] in RU; [|apply RU].
    specialize (SU f u).
    destruct (sign_block f kg dg st) as [[r st'] t']. cbn [events snd] in *.
    intros F. apply in_app_or in F as [F|F]; [now apply RU|].
    apply in_app_or in F as [F|[F|[]]]; [now contradiction SU|discriminate F].
  - intros A. rewrite pksign_cases, A.
    destruct resolve_default as [[f|e] t]; cbn [snd] in *.
    + destruct (sign_block f kg dg st) as [[r st'] t'].
      exists (t' ++ [CloseFactory]). split; [reflexivity|exact R].
    + exists []. split; [now rewrite app_nil_r|exact R].
  - intros sig. rewrite pksign_cases.
    destruct (is_str al "8"); [|discriminate].
    destruct resolve_default as [[f|e] t]; [|discriminate].
    rewrite sign_block_cases.
    destruct (decoded kg) as [grip|]; [|discriminate].
    destruct (String.eqb_spec (factory_keygrip f) grip) as [<-|_]; [|discriminate].
    intros _. now exists f.
  - intros kg' D. rewrite !pksign_cases.
    destruct (is_str al "8"); [|reflexivity].
    destruct resolve_default as [[f|e] t]; [|reflexivity].
    now rewrite !sign_block_cases, D.
Qed.

Lemma pksign_resolves_default_identity_witness :
  decoded (Some "abcd") = decoded (Some "ABCD") /\
  outcome (pksign (collab := double) (Some "ABCD") (Some "00FF") (Some "8") tt)
  = Return (sig_encode 1 2) /\
  decoded (Some "ABCD") = Some grip_abcd /\
  pksign (collab := double) (Some "abcd") (Some "00FF") (Some "8") tt
  = pksign (collab := double) (Some "ABCD") (Some "00FF") (Some "8") tt.
Proof.
  assert (D : decoded (Some "abcd") = decoded (Some "ABCD")) by reflexivity.
  assert (O : outcome (pksign (collab := double) (Some "ABCD") (Some "00FF") (Some "8") tt)
              = Return (sig_encode 1 2)) by (vm_compute; reflexivity).
  pose proof (@pksign_resolves_default_identity double unit tt
                (Some "ABCD") (Some "00FF") (Some "8")) as (_ & _ & K & E).
  split; [exact D|]. split; [exact O|]. split.
  - destruct (K _ O) as (f & _ & G). exact G.
  - exact (E _ D).
Defined.

(** ** The accept loop *)

Section AcceptLoopFacts.
Context {collab : Collaborators}.

Lemma accept_loop_stops_on_EOF (sockname : string) (conn : connection) (later : list connection) :
  outcome (handle_connection conn) = Raise EOFError ->
  accept_loop sockname (conn :: later)
  = (Returned, yield_connections sockname true ++ events (handle_connection conn) ++ [CloseConn]).
Proof. intros H. cbn [accept_loop]. now rewrite H. Qed.

Lemma accept_loop_goes_on (sockname : string) (conn : connection) (later : list connection) :
  outcome (handle_connection conn) = Return tt ->
  accept_loop sockname (conn :: later)
  = (fst (accept_loop sockname later),
     (yield_connections sockname true ++ events (handle_connection conn) ++ [CloseConn])
       ++ snd (accept_loop sockname later)).
Proof.
  intros H. cbn [accept_loop]. rewrite H.
  now destruct (accept_loop sockname later) as [e t'].
Qed.

Lemma accept_loop_crashes (sockname : string) (conn : connection) (later : list connection)
    (e : exn) :
  outcome (handle_connection conn) = Raise e ->
  e <> EOFError ->
  accept_loop sockname (conn :: later)
  = (Crashed e, yield_connections sockname true ++ events (handle_connection conn) ++ [CloseConn]).
Proof.
  intros H N. cbn [accept_loop]. rewrite H.
  destruct e; try reflexivity. now contradiction N.
Qed.

End AcceptLoopFacts.

(** C1, as the code has it: when the handling of a connection ends on the
    end of input while a line is read, [main] closes that connection,
    leaves the accept loop, releases the listening socket and returns; the
    connection was the only one accepted, and the clients that would have
    come later play no part.  The loop goes on to the next connection when
    the handler returned (after an unrecognized command), and an exception
    other than the end of input leaves [main] as it is. *)
Theorem disconnect_stops_accept_loop {collab : Collaborators}
    (home : string) (conn : connection) (later : list connection) :
  outcome (handle_connection conn) = Raise EOFError ->
  main home (conn :: later)
  = (Returned,
     [LogConfig; Listen (sock_path home)] ++ yield_connections (sock_path home) true
       ++ events (handle_connection conn) ++ [CloseConn; Unlisten]) /\
  accepted (snd (main home (conn :: later))) = 1 /\
  (forall later' : list connection,
     main home (conn :: later') = main home (conn :: later)) /\
  (forall (unknown : string) (args : list string),
     split SPACE unknown = command_of unknown :: args ->
     ~ In (command_of unknown) recognized_commands ->
     accept_loop (sock_path home) ((unknown :: conn) :: conn :: later)
     = (Returned,
        (yield_connections (sock_path home) true
           ++ [Send OK; Recv unknown; LogError "unknown request: %r" unknown]
           ++ [CloseConn])
          ++ yield_connections (sock_path home) true
          ++ events (handle_connection conn) ++ [CloseConn])).
Proof.
  intros H.
  assert (E : forall later' : list connection,
             main home (conn :: later')
             = (Returned,
                [LogConfig; Listen (sock_path home)] ++ yield_connections (sock_path home) true
                  ++ events (handle_connection conn) ++ [CloseConn; Unlisten])).
  { intros later'. unfold main. fold (sock_path home).
    rewrite (accept_loop_stops_on_EOF _ _ _ H).
    rewrite <- !app_assoc. reflexivity. }
  split; [apply E|]. split; [|split].
  - rewrite E. cbn [snd].
    rewrite !accepted_app, handle_connection_accepted. reflexivity.
  - intros later'. now rewrite !E.
  - intros unknown args Hs Hu.
    assert (U : handle_connection (unknown :: conn)
                = (Return tt, fresh,
                   [Send OK; Recv unknown; LogError "unknown request: %r" unknown])).
    { assert (A : acknowledged [] fresh = Some (fresh, [])) by reflexivity.
      change (unknown :: conn) with ([] ++ unknown :: conn).
      now rewrite (handle_connection_after _ _ _ _ A), command_loop_step,
        (handle_line_split _ _ _ _ Hs), (dispatch_unknown _ _ _ _ Hu). }
    rewrite accept_loop_goes_on by now rewrite U.
    rewrite (accept_loop_stops_on_EOF _ _ _ H), U. reflexivity.
Qed.

Lemma disconnect_stops_accept_loop_witness :
  outcome (handle_connection (collab := double) ["GETINFO"]) = Raise EOFError /\
  main (collab := double) "/home/u" (["GETINFO"] :: two_clients)
  = (Returned,
     [LogConfig; Listen (sock_path "/home/u")] ++ yield_connections (sock_path "/home/u") true
       ++ events (handle_connection (collab := double) ["GETINFO"])
       ++ [CloseConn; Unlisten]).
Proof.
  assert (H : outcome (handle_connection (collab := double) ["GETINFO"]) = Raise EOFError)
    by reflexivity.
  split; [exact H|].
  exact (proj1 (@disconnect_stops_accept_loop double "/home/u" ["GETINFO"] two_clients H)).
Defined.

(** C1 as stated fails: the first client disconnects at once, and the
    server, far from serving the second one, returns from [main] having
    accepted one connection; the request of the second client is never
    read and never answered. *)
Lemma accept_loop_ends_at_first_disconnect :
  outcome (handle_connection (collab := double) []) = Raise EOFError /\
  fst (main (collab := double) "/home/u" two_clients) = Returned /\
  accepted (snd (main (collab := double) "/home/u" two_clients)) = 1 /\
  sent (snd (main (collab := double) "/home/u" two_clients)) = [OK] /\
  ~ In (Recv "GETINFO") (snd (main (collab := double) "/home/u" two_clients)).
Proof.
  repeat split; try reflexivity.
  vm_compute. intros F.
  repeat (destruct F as [F|F]; [discriminate F|]). exact F.
Qed.

(** * Further properties of the code *)

Section EscapeFacts.

Lemma Escape_app (a b : string) : Escape (a ++ b) = (Escape a ++ Escape b)%string.
Proof.
  induction a as [|c a IH]; [reflexivity|].
  change (String c a ++ b)%string with (String c (a ++ b)%string).
  cbn [Escape]. rewrite IH.
  destruct (reserved c); [now rewrite string_app_assoc|reflexivity].
Qed.

Lemma string_length_app (a b : string) :
  String.length (a ++ b) = String.length a + String.length b.
Proof.
  induction a as [|c a IH]; [reflexivity|].
  cbn [append String.length]. now rewrite IH.
Qed.

Lemma Escape_length (text : string) :
  String.length (Escape text) = String.length text + 2 * reserved_count text.
Proof.
  induction text as [|c rest IH]; [reflexivity|].
  cbn [Escape reserved_count String.length].
  destruct (reserved c).
  - rewrite string_length_app, IH. cbn [percent_XX String.length]. lia.
  - cbn [String.length]. rewrite IH. lia.
Qed.

Lemma reserved_cases (c : ascii) :
  reserved c = true -> c = PERCENT \/ c = LF \/ c = CR.
Proof.
  unfold reserved. intros H.
  apply orb_true_iff in H as [H|H]; [apply orb_true_iff in H as [H|H]|];
    apply Ascii.eqb_eq in H; auto.
Qed.

Lemma percent_XX_head (c : ascii) (tail : string) :
  (percent_XX c ++ tail
   = String PERCENT (String (hex_digit (ord c / 16))
                       (String (hex_digit (ord c mod 16)) tail)))%string.
Proof. reflexivity. Qed.

Lemma Escape_inj (a b : string) : Escape a = Escape b -> a = b.
Proof.
  revert b. induction a as [|c a IH]; intros [|c' b] H.
  - reflexivity.
  - cbn [Escape] in H. destruct (reserved c'); [rewrite percent_XX_head in H|];
      discriminate H.
  - cbn [Escape] in H. destruct (reserved c); [rewrite percent_XX_head in H|];
      discriminate H.
  - cbn [Escape] in H.
    destruct (reserved c) eqn:R; destruct (reserved c') eqn:R'.
    + rewrite !percent_XX_head in H. injection H as H1 H2 H3.
      apply IH in H3. subst b. f_equal.
      apply reserved_cases in R as [->|[->| ->]];
        apply reserved_cases in R' as [->|[->| ->]];
        first [reflexivity | discriminate H1 | discriminate H2].
    + rewrite percent_XX_head in H. injection H as H1 _. subst c'.
      discriminate R'.
    + rewrite percent_XX_head in H. injection H as H1 _. subst c.
      discriminate R.
    + injection H as -> H. now rewrite (IH _ H).
Qed.

Lemma reserved_count_zero (text : string) :
  reserved_count text = 0 <-> forallb (fun c => negb (reserved c)) (chars text) = true.
Proof.
  induction text as [|c rest IH]; [now split|].
  cbn [reserved_count chars list_ascii_of_string forallb].
  fold (chars rest). destruct (reserved c); cbn [negb andb].
  - split; [lia|discriminate].
  - exact IH.
Qed.

Lemma Escape_clean (text : string) :
  reserved_count text = 0 -> Escape text = text.
Proof.
  induction text as [|c rest IH]; [reflexivity|].
  cbn [reserved_count Escape]. destruct (reserved c); [lia|].
  intros H. now rewrite IH.
Qed.

End EscapeFacts.

(** X1: escaping distributes over concatenation: a text can be escaped
    piece by piece. *)
Theorem serialize_app (a b : string) :
  serialize (a ++ b) = (serialize a ++ serialize b)%string.
Proof. rewrite !serialize_Escape. apply Escape_app. Qed.

(** X2: escaping loses nothing: two texts with the same escaped form are
    the same text. *)
Theorem serialize_injective (a b : string) :
  serialize a = serialize b -> a = b.
Proof. rewrite !serialize_Escape. apply Escape_inj. Qed.

Lemma serialize_injective_witness :
  serialize (String LF "%") = serialize (String LF "%") /\
  String LF "%" = String LF "%".
Proof.
  assert (H : serialize (String LF "%") = serialize (String LF "%")) by reflexivity.
  split; [exact H|]. exact (serialize_injective _ _ H).
Defined.

(** X3: every reserved character costs two more bytes and nothing else
    changes the length. *)
Theorem serialize_length (data : string) :
  String.length (serialize data) = String.length data + 2 * reserved_count data.
Proof. rewrite serialize_Escape. apply Escape_length. Qed.

(** X4: [serialize] returns its argument unchanged exactly when the
    argument holds no percent sign, line feed or carriage return. *)
Theorem serialize_fixed_iff (data : string) :
  serialize data = data <->
  forallb (fun c => negb (reserved c)) (chars data) = true.
Proof.
  rewrite <- reserved_count_zero, serialize_Escape. split.
  - intros H. pose proof (Escape_length data) as L. rewrite H in L. lia.
  - apply Escape_clean.
Qed.

(** X5: escaping the two numbers inside the framing is the same as
    escaping the whole S-expression: the framing holds no reserved
    character. *)
Theorem sig_encode_escapes_whole (r s : N) :
  sig_encode r s = (serialize (raw_sexp r s) ++ String LF EmptyString)%string.
Proof.
  rewrite (serialize_Escape (raw_sexp r s)). unfold raw_sexp.
  rewrite !Escape_app, <- !serialize_Escape.
  unfold sig_encode. cbv zeta.
  change (serialize "(7:sig-val(5:ecdsa(1:r32:") with "(7:sig-val(5:ecdsa(1:r32:".
  change (serialize ")(1:s32:") with ")(1:s32:".
  change (serialize ")))") with ")))".
  now rewrite !string_app_assoc.
Qed.

Section PksignOutcomes.
Context {collab : Collaborators}.

Lemma is_str_eq (x : option string) (lit : string) :
  is_str x lit = true <-> x = Some lit.
Proof.
  destruct x as [v|]; cbn [is_str]; [|split; discriminate].
  rewrite String.eqb_eq. split; [now intros ->|now intros [= ->]].
Qed.

Lemma releases_app (t t' : trace) : releases (t ++ t') = releases t + releases t'.
Proof.
  induction t as [|e t IH]; [reflexivity|].
  destruct e; cbn [app releases]; now rewrite IH.
Qed.

Lemma signed_app (t t' : trace) : signed (t ++ t') = signed t ++ signed t'.
Proof.
  induction t as [|e t IH]; [reflexivity|].
  destruct e; cbn [app signed]; now rewrite IH.
Qed.

Lemma resolve_default_quiet :
  releases (snd resolve_default) = 0 /\ signed (snd resolve_default) = [].
Proof.
  unfold resolve_default.
  destruct (export_public_key None) as [blob|e]; [|now split].
  destruct (load_public_key blob true) as [pubkey|e]; now split.
Qed.

(** What the [with] block signs: nothing, or the decoded digest once the
    keygrip has been found equal. *)
Lemma sign_block_signed {S} (f : Factory) (kg dg : option string) (st : S) :
  releases (events (sign_block f kg dg st)) = 0 /\
  (signed (events (sign_block f kg dg st)) = [] \/
   exists raw : string,
     signed (events (sign_block f kg dg st)) = [raw] /\
     decoded kg = Some (factory_keygrip f) /\ decoded dg = Some raw).
Proof.
  rewrite sign_block_cases.
  destruct (decoded kg) as [grip|]; [|now split; [|left]].
  destruct (String.eqb_spec (factory_keygrip f) grip) as [<-|_]; [|now split; [|left]].
  destruct (decoded dg) as [raw|]; [|now split; [|left]].
  destruct (conn_sign f raw) as [rs|e];
    (split; [reflexivity|right; exists raw; now repeat split]).
Qed.

End PksignOutcomes.

(** X6: [pksign] returns a signature exactly when the algorithm is '8',
    the default key resolves to a factory, the named keygrip decodes to
    the keygrip of that factory, the digest decodes, and the device signs
    the decoded digest; the signature is then the encoding of what the
    device returned. *)
Theorem pksign_returns_iff {collab : Collaborators} {S : Type}
    (st : S) (kg dg al : option string) (sig : string) :
  outcome (pksign kg dg al st) = Return sig <->
  al = Some "8" /\
  exists (f : Factory) (raw : string) (rs : N * N),
    fst resolve_default = Return f /\
    decoded kg = Some (factory_keygrip f) /\
    decoded dg = Some raw /\
    conn_sign f raw = Return rs /\
    sig = sig_encode (fst rs) (snd rs).
Proof.
  rewrite pksign_cases, <- is_str_eq.
  destruct (is_str al "8").
  2:{ split; [discriminate|]. now intros [? _]. }
  destruct resolve_default as [[f|e] t]; cbn [fst].
  2:{ split; [discriminate|]. intros (_ & f & raw & rs & F & _). discriminate F. }
  rewrite sign_block_cases.
  destruct (decoded kg) as [grip|].
  2:{ split; [discriminate|]. intros (_ & f' & raw & rs & _ & K & _). discriminate K. }
  destruct (String.eqb_spec (factory_keygrip f) grip) as [<-|N].
  2:{ split; [discriminate|].
      intros (_ & f' & raw & rs & F & K & _).
      injection F as <-. injection K as K. now contradiction N. }
  destruct (decoded dg) as [raw|].
  2:{ split; [discriminate|]. intros (_ & f' & raw & rs & _ & _ & D & _). discriminate D. }
  destruct (conn_sign f raw) as [rs|e] eqn:C; cbn [outcome fst].
  - split.
    + intros [= <-]. split; [reflexivity|]. now exists f, raw, rs.
    + intros (_ & f' & raw' & rs' & F & _ & D & C' & ->).
      injection F as <-. injection D as <-. rewrite C in C'. now injection C' as <-.
  - split; [discriminate|].
    intros (_ & f' & raw' & rs' & F & _ & D & C' & _).
    injection F as <-. injection D as <-. rewrite C in C'. discriminate C'.
Qed.

(** X7: once the factory exists it is released exactly once, as the last
    thing [pksign] does, whether the block signed, failed an assertion or
    the device raised; when no factory was made nothing is released. *)
Theorem pksign_releases_factory {collab : Collaborators} {S : Type}
    (st : S) (kg dg al : option string) :
  (forall f : Factory,
     al = Some "8" -> fst resolve_default = Return f ->
     releases (events (pksign kg dg al st)) = 1 /\
     exists t : trace, events (pksign kg dg al st) = t ++ [CloseFactory]) /\
  (al <> Some "8" \/ (exists e : exn, fst resolve_default = Raise e) ->
   releases (events (pksign kg dg al st)) = 0).
Proof.
  rewrite pksign_cases. split.
  - intros f A F. apply is_str_eq in A. rewrite A.
    pose proof resolve_default_quiet as [Q _].
    destruct resolve_default as [[f'|e] t]; cbn [fst] in F; [|discriminate F].
    pose proof (sign_block_signed f' kg dg st) as [R _].
    destruct (sign_block f' kg dg st) as [[r st'] t']. cbn [events snd] in *.
    split.
    + rewrite !releases_app, Q, R. reflexivity.
    + exists (t ++ t'). now rewrite app_assoc.
  - intros [A|[e F]].
    + destruct (is_str al "8") eqn:E; [|reflexivity].
      apply is_str_eq in E. now contradiction A.
    + destruct (is_str al "8"); [|reflexivity].
      pose proof resolve_default_quiet as [Q _].
      destruct resolve_default as [[f'|e'] t]; cbn [fst] in F; [discriminate F|].
      exact Q.
Qed.

Lemma pksign_releases_factory_witness :
  fst (resolve_default (collab := double)) = Return "blob" /\
  releases (events (pksign (collab := double) (Some "0000") (Some "00FF") (Some "8") tt)) = 1.
Proof.
  assert (F : fst (resolve_default (collab := double)) = Return "blob") by reflexivity.
  split; [exact F|].
  exact (proj1 (proj1 (@pksign_releases_factory double unit tt
                         (Some "0000") (Some "00FF") (Some "8")) "blob" eq_refl F)).
Defined.

(** X8: the device is asked to sign at most once, and only the decoded
    digest, and only after the keygrip the client named was found equal to
    the keygrip of the resolved key. *)
Theorem pksign_signs_only_matching_key {collab : Collaborators} {S : Type}
    (st : S) (kg dg al : option string) :
  signed (events (pksign kg dg al st)) = [] \/
  exists (f : Factory) (raw : string),
    signed (events (pksign kg dg al st)) = [raw] /\
    al = Some "8" /\
    fst resolve_default = Return f /\
    decoded kg = Some (factory_keygrip f) /\
    decoded dg = Some raw.
Proof.
  rewrite pksign_cases.
  destruct (is_str al "8") eqn:A; [|now left].
  apply is_str_eq in A.
  pose proof resolve_default_quiet as [_ Q].
  destruct resolve_default as [[f|e] t]; cbn [fst snd] in *; [|now left].
  pose proof (sign_block_signed f kg dg st) as [_ B].
  destruct (sign_block f kg dg st) as [[r st'] t']. cbn [events snd] in *.
  rewrite !signed_app, Q. cbn [signed app]. rewrite app_nil_r.
  destruct B as [B|(raw & B & K & D)]; [now left|right].
  exists f, raw. now repeat split.
Qed.

Section RoundFacts.
Context {collab : Collaborators}.

Lemma dispatch_locals (line command : string) (args : list string) (st : Session) :
  locals (dispatch line command args st) = st \/
  (outcome (dispatch line command args st) = Return true /\
   locals (dispatch line command args st) = stage_parts command args st).
Proof.
  destruct (recognized_dec command) as [R|U].
  - apply recognized_cases in R as [N|[->|[->|[->|[->| ->]]]]].
    + left. now rewrite (dispatch_noop _ _ _ _ N).
    + now left.
    + now left.
    + rewrite dispatch_SIGKEY.
      destruct args as [|k [|k' args]]; [now left|right; now split|now left].
    + rewrite dispatch_SETHASH.
      destruct args as [|a [|d [|x args]]];
        [now left|now left|right; now split|now left].
    + left. rewrite dispatch_PKSIGN.
      pose proof (pksign_locals (keygrip st) (digest st) (algo st) st) as L.
      now destruct (pksign (keygrip st) (digest st) (algo st) st) as [[[sig|e] st'] t].
  - left. now rewrite (dispatch_unknown _ _ _ _ U).
Qed.

(** An acknowledged round leaves the session as [stage] says. *)
Lemma dispatch_staged (line command : string) (args : list string) (st : Session) :
  outcome (dispatch line command args st) = Return true ->
  locals (dispatch line command args st) = stage_parts command args st.
Proof.
  destruct (recognized_dec command) as [R|U].
  - apply recognized_cases in R as [N|[->|[->|[->|[->| ->]]]]].
    + intros _. rewrite (dispatch_noop _ _ _ _ N).
      unfold stage_parts.
      destruct N as [<-|[<-|[<-|[<-|[]]]]]; reflexivity.
    + reflexivity.
    + reflexivity.
    + rewrite dispatch_SIGKEY.
      now destruct args as [|k [|k' args]].
    + rewrite dispatch_SETHASH.
      now destruct args as [|a [|d [|x args]]].
    + intros _. rewrite dispatch_PKSIGN.
      pose proof (pksign_locals (keygrip st) (digest st) (algo st) st) as L.
      now destruct (pksign (keygrip st) (digest st) (algo st) st) as [[[sig|e] st'] t].
  - rewrite (dispatch_unknown _ _ _ _ U). discriminate.
Qed.

Lemma handle_line_staged (line : string) (st st' : Session) (t : trace) :
  handle_line line st = (Return true, st', t) -> st' = stage st line.
Proof.
  unfold stage.
  destruct (split SPACE line) as [|command args] eqn:Hs;
    [now apply split_nonempty in Hs|].
  rewrite (handle_line_split _ _ _ _ Hs).
  pose proof (dispatch_staged line command args st) as D.
  destruct (dispatch line command args st) as [[[[|]|e] st''] t''];
    intros [= <- <-]. exact (D eq_refl).
Qed.

(** [dispatch] returns [false] on no recognized command. *)
Lemma dispatch_false_unknown (line command : string) (args : list string)
    (st st' : Session) (t : trace) :
  dispatch line command args st = (Return false, st', t) ->
  ~ In command recognized_commands.
Proof.
  intros E R.
  apply recognized_cases in R as [N|[->|[->|[->|[->| ->]]]]].
  - rewrite (dispatch_noop _ _ _ _ N) in E. discriminate E.
  - discriminate E.
  - discriminate E.
  - rewrite dispatch_SIGKEY in E.
    destruct args as [|k [|k' args]]; discriminate E.
  - rewrite dispatch_SETHASH in E.
    destruct args as [|a [|d [|x args]]]; discriminate E.
  - rewrite dispatch_PKSIGN in E.
    destruct (pksign _ _ _ st) as [[[sig|e] st''] t'']; discriminate E.
Qed.

Lemma handle_line_false (line : string) (st st' : Session) (t : trace) :
  handle_line line st = (Return false, st', t) ->
  ~ In (command_of line) recognized_commands.
Proof.
  unfold command_of.
  destruct (split SPACE line) as [|command args] eqn:Hs;
    [now apply split_nonempty in Hs|].
  rewrite (handle_line_split _ _ _ _ Hs). cbn [hd].
  destruct (dispatch line command args st) as [[[[|]|e] st''] t''] eqn:D;
    try discriminate.
  intros _. exact (dispatch_false_unknown _ _ _ _ _ _ D).
Qed.

Lemma command_of_split (line : string) :
  exists args : list string, split SPACE line = command_of line :: args.
Proof.
  unfold command_of.
  destruct (split SPACE line) as [|command args] eqn:Hs;
    [now apply split_nonempty in Hs|].
  now exists args.
Qed.

(** The loop ends by returning only on an unrecognized command. *)
Lemma command_loop_returns (conn : connection) (st : Session) :
  outcome (command_loop conn st) = Return tt ->
  exists (pre : list string) (line : string) (rest : list string)
         (st1 : Session) (t : trace),
    conn = pre ++ line :: rest /\
    acknowledged pre st = Some (st1, t) /\
    ~ In (command_of line) recognized_commands.
Proof.
  revert st. induction conn as [|line rest IH]; intros st; [discriminate|].
  rewrite command_loop_step.
  destruct (handle_line line st) as [[[[|]|e] st'] tl] eqn:H.
  - specialize (IH st').
    destruct (command_loop rest st') as [[r st''] t']. cbn [outcome fst] in *.
    intros O. destruct (IH O) as (pre & l & rest' & st1 & t & -> & A & U).
    exists (line :: pre), l, rest', st1, (Recv line :: tl ++ t).
    split; [reflexivity|]. split; [|exact U].
    cbn [acknowledged]. now rewrite H, A.
  - intros _. exists [], line, rest, st, [].
    split; [reflexivity|]. split; [reflexivity|].
    exact (handle_line_false _ _ _ _ H).
  - discriminate.
Qed.

Lemma command_loop_unknown (line : string) (rest : list string) (st : Session) :
  ~ In (command_of line) recognized_commands ->
  command_loop (line :: rest) st
  = (Return tt, st, [Recv line; LogError "unknown request: %r" line]).
Proof.
  intros U. destruct (command_of_split line) as [args Hs].
  now rewrite command_loop_step, (handle_line_split _ _ _ _ Hs),
    (dispatch_unknown _ _ _ _ U).
Qed.

End RoundFacts.

(** X9: a PKSIGN round never changes the staged key, digest or
    algorithm, whether it signs or fails, and a PKSIGN round that fails
    has sent nothing. *)
Theorem PKSIGN_round_keeps_session {collab : Collaborators}
    (st : Session) (line : string) (args : list string) :
  split SPACE line = "PKSIGN" :: args ->
  locals (handle_line line st) = st /\
  (forall e : exn,
     outcome (handle_line line st) = Raise e ->
     sent (events (handle_line line st)) = []).
Proof.
  intros Hs. rewrite (handle_line_split _ _ _ _ Hs), dispatch_PKSIGN.
  pose proof (pksign_locals (keygrip st) (digest st) (algo st) st) as L.
  pose proof (pksign_backend (keygrip st) (digest st) (algo st) st) as B.
  destruct (pksign (keygrip st) (digest st) (algo st) st) as [[[sig|e] st'] t];
    cbn [locals outcome events fst snd] in *.
  - split; [exact L|discriminate].
  - split; [exact L|]. intros _ _. now apply backend_sent.
Qed.

Lemma PKSIGN_round_keeps_session_witness :
  split SPACE "PKSIGN" = "PKSIGN" :: [] /\
  locals (handle_line (collab := double) "PKSIGN" staged) = staged.
Proof.
  assert (Hs : split SPACE "PKSIGN" = "PKSIGN" :: []) by reflexivity.
  split; [exact Hs|].
  exact (proj1 (@PKSIGN_round_keeps_session double staged _ _ Hs)).
Defined.

(** X10: after any run of acknowledged lines the session holds what the
    SIGKEY and SETHASH lines among them staged, the last of each kind
    winning; no other command and no answer of the registry or the device
    has any part in it. *)
Theorem session_is_what_was_staged {collab : Collaborators}
    (pre : list string) (st st1 : Session) (t : trace) :
  acknowledged pre st = Some (st1, t) ->
  st1 = fold_left stage pre st.
Proof.
  revert st t. induction pre as [|line pre IH]; intros st t H.
  - cbn in H. now injection H as <- <-.
  - cbn [acknowledged] in H. cbn [fold_left].
    destruct (handle_line line st) as [[[[|]|e] st'] tl] eqn:E; try discriminate H.
    destruct (acknowledged pre st') as [[st'' t']|] eqn:A; [|discriminate H].
    injection H as <- <-.
    rewrite <- (handle_line_staged _ _ _ _ E). exact (IH _ _ A).
Qed.

Lemma session_is_what_was_staged_witness :
  exists t : trace,
    acknowledged (collab := double) busy_session fresh = Some (staged, t) /\
    staged = fold_left stage busy_session fresh.
Proof.
  eexists.
  assert (A : acknowledged (collab := double) busy_session fresh = Some (staged, _))
    by (vm_compute; reflexivity).
  split; [exact A|].
  exact (@session_is_what_was_staged double _ _ _ _ A).
Defined.

Section ReplyFacts.
Context {collab : Collaborators}.

Lemma pksign_sig_form {S} (kg dg al : option string) (st : S) (sig : string) :
  outcome (pksign kg dg al st) = Return sig ->
  exists r s : N, sig = sig_encode r s.
Proof.
  rewrite pksign_cases.
  destruct (is_str al "8"); [|discriminate].
  destruct resolve_default as [[f|e] t]; [|discriminate].
  rewrite sign_block_cases.
  destruct (decoded kg) as [grip|]; [|discriminate].
  destruct (String.eqb _ _); [|discriminate].
  destruct (decoded dg) as [raw|]; [|discriminate].
  destruct (conn_sign f raw) as [rs|e]; [|discriminate].
  intros [= <-]. now exists (fst rs), (snd rs).
Qed.

Lemma dispatch_replies (line command : string) (args : list string) (st : Session) :
  forall d : string,
    In d (sent (events (dispatch line command args st))) -> data_reply d.
Proof.
  intros d.
  destruct (recognized_dec command) as [R|U].
  - apply recognized_cases in R as [N|[->|[->|[->|[->| ->]]]]].
    + now rewrite (dispatch_noop _ _ _ _ N).
    + intros [<-|[]]. now left.
    + intros [<-|[]]. right. now left.
    + rewrite dispatch_SIGKEY. now destruct args as [|k [|k' args]].
    + rewrite dispatch_SETHASH. now destruct args as [|a [|x [|y args]]].
    + rewrite dispatch_PKSIGN.
      pose proof (pksign_backend (keygrip st) (digest st) (algo st) st) as B.
      pose proof (pksign_sig_form (keygrip st) (digest st) (algo st) st) as F.
      destruct (pksign (keygrip st) (digest st) (algo st) st) as [[[sig|e] st'] t];
        cbn [events outcome fst snd] in *.
      * rewrite sent_app, (backend_sent _ B). intros [<-|[]].
        destruct (F sig eq_refl) as (r & s & ->). right. right. now exists r, s.
      * now rewrite (backend_sent _ B).
  - now rewrite (dispatch_unknown _ _ _ _ U).
Qed.

Lemma handle_line_replies (line : string) (st : Session) :
  forall d : string,
    In d (sent (events (handle_line line st))) -> d = OK \/ data_reply d.
Proof.
  intros d.
  destruct (split SPACE line) as [|command args] eqn:Hs;
    [now apply split_nonempty in Hs|].
  rewrite (handle_line_split _ _ _ _ Hs).
  pose proof (dispatch_replies line command args st d) as D.
  destruct (dispatch line command args st) as [[[[|]|e] st'] t];
    cbn [events snd] in *; rewrite ?sent_app; intros H;
    try apply in_app_or in H as [H|H]; auto.
  - destruct H as [<-|[]]. now left.
  - destruct H.
Qed.

Lemma command_loop_replies (conn : connection) (st : Session) :
  forall d : string,
    In d (sent (events (command_loop conn st))) -> d = OK \/ data_reply d.
Proof.
  intros d. revert st. induction conn as [|line rest IH]; intros st; [intros []|].
  rewrite command_loop_step.
  pose proof (handle_line_replies line st d) as H.
  destruct (handle_line line st) as [[[[|]|e] st'] t]; cbn [events snd] in H.
  - specialize (IH st').
    destruct (command_loop rest st') as [[r st''] t']. cbn [events snd sent] in *.
    rewrite sent_app. intros F. apply in_app_or in F as [F|F]; auto.
  - cbn [events snd sent]. rewrite sent_app. intros F.
    apply in_app_or in F as [F|[]]; auto.
  - exact H.
Qed.

(** A data line with a signature is one line. *)
Lemma signature_line (r s : N) :
  exists body : string,
    ("D " ++ sig_encode r s = body ++ String LF EmptyString)%string /\
    ~ In LF (chars body).
Proof.
  exists ("D " ++ "(7:sig-val(5:ecdsa(1:r32:" ++ serialize (num2bytes r 32)
            ++ ")(1:s32:" ++ serialize (num2bytes s 32) ++ ")))")%string.
  split; [apply app_shift_last|].
  repeat (apply app_no_char;
          [first [apply serialize_no_break | apply lacks_sound; reflexivity]|]).
  apply lacks_sound; reflexivity.
Qed.

End ReplyFacts.

(** X11: [handle_connection] returns, rather than raising, exactly when
    some line after a run of acknowledged lines has a command token that
    is not recognized; every other session ends on an exception, the end
    of input included. *)
Theorem handle_connection_returns_iff {collab : Collaborators} (conn : connection) :
  outcome (handle_connection conn) = Return tt <->
  exists (pre : list string) (line : string) (rest : list string)
         (st1 : Session) (t : trace),
    conn = pre ++ line :: rest /\
    acknowledged pre fresh = Some (st1, t) /\
    ~ In (command_of line) recognized_commands.
Proof.
  split.
  - intros H. apply command_loop_returns.
    unfold handle_connection, bind, sendall, emit in H. fold fresh in H.
    now destruct (command_loop conn fresh) as [[r st] t].
  - intros (pre & line & rest & st1 & t & -> & A & U).
    now rewrite (handle_connection_after _ _ _ _ A), (command_loop_unknown _ _ _ U).
Qed.

(** X12: whatever the client sends, the agent answers with nothing but
    the line OK, the two fixed data lines and data lines that carry an
    encoded signature; there is no error reply. *)
Theorem replies_are_OK_or_data {collab : Collaborators} (conn : connection) (d : string) :
  In d (sent (events (handle_connection conn))) ->
  d = OK \/ data_reply d.
Proof.
  unfold handle_connection, bind, sendall, emit. fold fresh.
  pose proof (command_loop_replies conn fresh d) as H.
  destruct (command_loop conn fresh) as [[r st] t]. cbn [events snd app sent] in *.
  intros [<-|F]; [now left|auto].
Qed.

Lemma replies_are_OK_or_data_witness :
  In ("D " ++ sig_encode 1 2)%string
     (sent (events (handle_connection (collab := double) busy_session))) /\
  (("D " ++ sig_encode 1 2)%string = OK \/ data_reply ("D " ++ sig_encode 1 2)).
Proof.
  assert (H : In ("D " ++ sig_encode 1 2)%string
                (sent (events (handle_connection (collab := double) busy_session)))).
  { vm_compute. do 6 right. left. reflexivity. }
  split; [exact H|].
  exact (@replies_are_OK_or_data double busy_session _ H).
Defined.

(** X13: every message the agent sends on a connection is one complete
    line: it ends with a line feed and holds no other. *)
Theorem replies_are_single_lines {collab : Collaborators} (conn : connection) (d : string) :
  In d (sent (events (handle_connection conn))) ->
  exists body : string,
    d = (body ++ String LF EmptyString)%string /\ ~ In LF (chars body).
Proof.
  unfold handle_connection, bind, sendall, emit. fold fresh.
  pose proof (command_loop_replies conn fresh d) as H.
  destruct (command_loop conn fresh) as [[r st] t]. cbn [events snd app sent] in *.
  intros F.
  assert (K : d = OK \/ data_reply d) by (destruct F as [<-|F]; [now left|auto]).
  destruct K as [->|[->|[->|(x & y & ->)]]].
  - exists "OK". split; [reflexivity|apply lacks_sound; reflexivity].
  - exists "D 2.1.11". split; [reflexivity|apply lacks_sound; reflexivity].
  - exists "D TREZOR". split; [reflexivity|apply lacks_sound; reflexivity].
  - apply signature_line.
Qed.

Lemma replies_are_single_lines_witness :
  In OK (sent (events (handle_connection (collab := double) busy_session))) /\
  exists body : string,
    OK = (body ++ String LF EmptyString)%string /\ ~ In LF (chars body).
Proof.
  assert (H : In OK (sent (events (handle_connection (collab := double) busy_session))))
    by (left; reflexivity).
  split; [exact H|].
  exact (@replies_are_single_lines double busy_session _ H).
Defined.

Section LoopFacts.
Context {collab : Collaborators}.

Lemma backend_on_connection (t : trace) :
  forallb is_backend t = true -> forallb on_connection t = true.
Proof.
  induction t as [|e t IH]; [reflexivity|].
  cbn [forallb]. intros H. apply andb_true_iff in H as [He Ht].
  rewrite (IH Ht), andb_true_r. now destruct e.
Qed.

Lemma dispatch_on_connection (line command : string) (args : list string) (st : Session) :
  forallb on_connection (events (dispatch line command args st)) = true.
Proof.
  destruct (recognized_dec command) as [R|U].
  - apply recognized_cases in R as [N|[->|[->|[->|[->| ->]]]]].
    + now rewrite (dispatch_noop _ _ _ _ N).
    + reflexivity.
    + reflexivity.
    + rewrite dispatch_SIGKEY. now destruct args as [|k [|k' args]].
    + rewrite dispatch_SETHASH. now destruct args as [|a [|x [|y args]]].
    + rewrite dispatch_PKSIGN.
      pose proof (pksign_backend (keygrip st) (digest st) (algo st) st) as B.
      apply backend_on_connection in B.
      destruct (pksign (keygrip st) (digest st) (algo st) st) as [[[sig|e] st'] t];
        cbn [events snd] in *; [|exact B].
      now rewrite forallb_app, B.
  - now rewrite (dispatch_unknown _ _ _ _ U).
Qed.

Lemma handle_line_on_connection (line : string) (st : Session) :
  forallb on_connection (events (handle_line line st)) = true.
Proof.
  destruct (split SPACE line) as [|command args] eqn:Hs;
    [now apply split_nonempty in Hs|].
  rewrite (handle_line_split _ _ _ _ Hs).
  pose proof (dispatch_on_connection line command args st) as D.
  destruct (dispatch line command args st) as [[[[|]|e] st'] t];
    cbn [events snd] in *; rewrite ?forallb_app, D; reflexivity.
Qed.

Lemma command_loop_on_connection (conn : connection) (st : Session) :
  forallb on_connection (events (command_loop conn st)) = true.
Proof.
  revert st. induction conn as [|line rest IH]; intros st; [reflexivity|].
  rewrite command_loop_step.
  pose proof (handle_line_on_connection line st) as H.
  destruct (handle_line line st) as [[[[|]|e] st'] t]; cbn [events snd] in H.
  - specialize (IH st').
    destruct (command_loop rest st') as [[r st''] t']. cbn [events snd] in *.
    cbn [forallb on_connection]. now rewrite forallb_app, H, IH.
  - cbn [events snd forallb on_connection]. now rewrite forallb_app, H.
  - cbn [events snd forallb on_connection]. exact H.
Qed.

(** A session handler does nothing to the listening socket and neither
    accepts nor closes a connection. *)
Lemma handle_connection_on_connection (conn : connection) :
  forallb on_connection (events (handle_connection conn)) = true.
Proof.
  unfold handle_connection, bind, sendall, emit.
  pose proof (command_loop_on_connection conn (mkSession None None None)) as H.
  destruct (command_loop conn (mkSession None None None)) as [[r st] t].
  exact H.
Qed.

Lemma closed_app (t t' : trace) : closed (t ++ t') = closed t + closed t'.
Proof.
  induction t as [|e t IH]; [reflexivity|].
  destruct e; cbn [app closed]; now rewrite IH.
Qed.

Lemma untimed_app (t t' : trace) : untimed (t ++ t') = untimed t + untimed t'.
Proof.
  induction t as [|e t IH]; [reflexivity|].
  destruct e as [| | |[n|]| | | | | | | | | | | |]; cbn [app untimed]; now rewrite IH.
Qed.

Lemma on_connection_counts (t : trace) :
  forallb on_connection t = true ->
  accepted t = 0 /\ closed t = 0 /\ untimed t = 0.
Proof.
  induction t as [|e t IH]; [now repeat split|].
  cbn [forallb]. intros H. apply andb_true_iff in H as [He Ht].
  destruct (IH Ht) as (A & C & U).
  destruct e; try discriminate He; cbn [accepted closed untimed]; now repeat split.
Qed.

Lemma accept_loop_counts (sockname : string) (pending : list connection) :
  let t := snd (accept_loop sockname pending) in
  accepted t = closed t /\ accepted t = untimed t /\ accepted t <= length pending.
Proof.
  induction pending as [|conn later IH]; [cbn; repeat split; lia|].
  cbn [accept_loop length].
  destruct (on_connection_counts _ (handle_connection_on_connection conn))
    as (A & C & U).
  assert (E : let t := yield_connections sockname true
                         ++ events (handle_connection conn) ++ [CloseConn] in
              accepted t = 1 /\ closed t = 1 /\ untimed t = 1).
  { cbv zeta.
    rewrite !accepted_app, !closed_app, !untimed_app, A, C, U. now repeat split. }
  cbv zeta in E, IH. destruct E as (E1 & E2 & E3).
  destruct (outcome (handle_connection conn)) as [[]|e].
  - destruct (accept_loop sockname later) as [x t']. cbn [snd] in *.
    rewrite accepted_app, closed_app, untimed_app, E1, E2, E3. lia.
  - destruct e; cbn [snd]; rewrite E1, E2, E3; repeat split; lia.
Qed.

Lemma accept_loop_waiting (sockname : string) (pending : list connection) :
  fst (accept_loop sockname pending) = Waiting <->
  Forall (fun conn => outcome (handle_connection conn) = Return tt) pending.
Proof.
  induction pending as [|conn later IH]; [now split|].
  cbn [accept_loop].
  destruct (outcome (handle_connection conn)) as [[]|e] eqn:O.
  - destruct (accept_loop sockname later) as [x t']. cbn [fst] in *.
    rewrite IH. split; [now constructor|].
    intros F. now inversion F.
  - split.
    + destruct e; discriminate.
    + intros F. inversion F as [|c l H1 H2]. congruence.
Qed.

Lemma accept_loop_all_accepted (sockname : string) (pending : list connection) :
  Forall (fun conn => outcome (handle_connection conn) = Return tt) pending ->
  accepted (snd (accept_loop sockname pending)) = length pending.
Proof.
  induction 1 as [|conn later O F IH]; [reflexivity|].
  cbn [accept_loop length]. rewrite O.
  destruct (accept_loop sockname later) as [x t']. cbn [snd] in *.
  rewrite !accepted_app, handle_connection_accepted, IH. reflexivity.
Qed.

Lemma main_trace (home : string) (pending : list connection) :
  exists tail : trace,
    snd (main home pending)
    = [LogConfig; Listen (sock_path home)]
        ++ snd (accept_loop (sock_path home) pending) ++ tail /\
    (tail = [] \/ tail = [Unlisten]) /\
    fst (main home pending) = fst (accept_loop (sock_path home) pending).
Proof.
  unfold main. fold (sock_path home).
  destruct (accept_loop (sock_path home) pending) as [[| |e] t].
  - exists []. rewrite app_nil_r. split; [reflexivity|]. split; [now left|reflexivity].
  - exists [Unlisten]. split; [reflexivity|]. split; [now right|reflexivity].
  - exists [Unlisten]. split; [reflexivity|]. split; [now right|reflexivity].
Qed.

End LoopFacts.

(** X14: an exception other than the end of input in one session ends the
    server: [main] closes that connection, releases the listening socket
    and lets the exception out; the clients that would have connected
    later are never accepted. *)
Theorem session_fault_stops_server {collab : Collaborators}
    (home : string) (conn : connection) (later : list connection) (e : exn) :
  outcome (handle_connection conn) = Raise e ->
  e <> EOFError ->
  main home (conn :: later)
  = (Crashed e,
     [LogConfig; Listen (sock_path home)] ++ yield_connections (sock_path home) true
       ++ events (handle_connection conn) ++ [CloseConn; Unlisten]) /\
  accepted (snd (main home (conn :: later))) = 1.
Proof.
  intros H N.
  assert (E : main home (conn :: later)
              = (Crashed e,
                 [LogConfig; Listen (sock_path home)]
                   ++ yield_connections (sock_path home) true
                   ++ events (handle_connection conn) ++ [CloseConn; Unlisten])).
  { unfold main. fold (sock_path home).
    rewrite (accept_loop_crashes _ _ _ _ H N).
    rewrite <- !app_assoc. reflexivity. }
  split; [exact E|].
  rewrite E. cbn [snd].
  rewrite !accepted_app, handle_connection_accepted. reflexivity.
Qed.

Lemma session_fault_stops_server_witness :
  outcome (handle_connection (collab := double) ["SIGKEY"]) = Raise ValueError /\
  ValueError <> EOFError /\
  accepted (snd (main (collab := double) "/home/u" (["SIGKEY"] :: two_clients))) = 1.
Proof.
  assert (H : outcome (handle_connection (collab := double) ["SIGKEY"]) = Raise ValueError)
    by reflexivity.
  assert (N : ValueError <> EOFError) by discriminate.
  split; [exact H|]. split; [exact N|].
  exact (proj2 (@session_fault_stops_server double "/home/u" ["SIGKEY"] two_clients _ H N)).
Defined.

(** X15: in every run of [main] each accepted connection had its timeout
    removed and was closed, once each, and no more connections are
    accepted than clients connect. *)
Theorem main_closes_what_it_accepts {collab : Collaborators}
    (home : string) (pending : list connection) :
  accepted (snd (main home pending)) = closed (snd (main home pending)) /\
  accepted (snd (main home pending)) = untimed (snd (main home pending)) /\
  accepted (snd (main home pending)) <= length pending.
Proof.
  destruct (main_trace home pending) as (tail & -> & T & _).
  pose proof (accept_loop_counts (sock_path home) pending) as C. cbv zeta in C.
  rewrite !accepted_app, !closed_app, !untimed_app.
  destruct T as [->| ->]; cbn [accepted closed untimed]; lia.
Qed.

(** X16: the server is still waiting for a client after the pending ones
    exactly when every one of their sessions ended by the handler
    returning; all of them were then accepted. *)
Theorem main_waits_iff_all_returned {collab : Collaborators}
    (home : string) (pending : list connection) :
  (fst (main home pending) = Waiting <->
   Forall (fun conn => outcome (handle_connection conn) = Return tt) pending) /\
  (fst (main home pending) = Waiting ->
   accepted (snd (main home pending)) = length pending).
Proof.
  destruct (main_trace home pending) as (tail & E & T & F).
  rewrite F, E. split; [apply accept_loop_waiting|].
  intros W. apply accept_loop_waiting in W.
  rewrite !accepted_app, (accept_loop_all_accepted _ _ W).
  destruct T as [->| ->]; cbn [accepted]; lia.
Qed.

Lemma main_waits_iff_all_returned_witness :
  fst (main (collab := double) "/home/u" [["FOO"]; ["GETINFO"; ""]]) = Waiting /\
  accepted (snd (main (collab := double) "/home/u" [["FOO"]; ["GETINFO"; ""]])) = 2.
Proof.
  assert (W : fst (main (collab := double) "/home/u" [["FOO"]; ["GETINFO"; ""]]) = Waiting)
    by reflexivity.
  split; [exact W|].
  exact (proj2 (@main_waits_iff_all_returned double "/home/u" [["FOO"]; ["GETINFO"; ""]]) W).
Defined.

Section ParsingFacts.
Context {collab : Collaborators}.

(** [split] gives one field more than there are separators. *)
Lemma split_length (sep : ascii) (s : string) :
  length (split sep s) = S (occurrences sep s).
Proof.
  induction s as [|c rest IH]; [reflexivity|].
  cbn [split occurrences].
  destruct (Ascii.eqb c sep); cbn [length plus].
  - now rewrite IH.
  - destruct (split sep rest) as [|w ws]; [discriminate IH|exact IH].
Qed.

Lemma args_length (line : string) (args : list string) :
  split SPACE line = command_of line :: args ->
  length args = occurrences SPACE line.
Proof.
  intros Hs. pose proof (split_length SPACE line) as L.
  rewrite Hs in L. cbn [length] in L. lia.
Qed.

Lemma command_of_blank (line : string) :
  line = EmptyString \/ (exists s : string, line = String SPACE s) ->
  command_of line = EmptyString.
Proof. intros [->|[s ->]]; reflexivity. Qed.

Lemma handle_line_SIGKEY (line : string) (args : list string) (st : Session) :
  split SPACE line = "SIGKEY" :: args ->
  outcome (handle_line line st) = Return true <-> length args = 1.
Proof.
  intros Hs. rewrite (handle_line_split _ _ _ _ Hs), dispatch_SIGKEY.
  destruct args as [|k [|k' args]]; cbn [outcome fst length];
    split; first [discriminate | reflexivity].
Qed.

Lemma handle_line_SETHASH (line : string) (args : list string) (st : Session) :
  split SPACE line = "SETHASH" :: args ->
  outcome (handle_line line st) = Return true <-> length args = 2.
Proof.
  intros Hs. rewrite (handle_line_split _ _ _ _ Hs), dispatch_SETHASH.
  destruct args as [|a [|d [|x args]]]; cbn [outcome fst length];
    split; first [discriminate | reflexivity].
Qed.

End ParsingFacts.

(** X17: an empty line, and a line that starts with a space, have the
    empty command token: the handler logs the line and returns, so the
    session ends without a reply. *)
Theorem blank_line_ends_session {collab : Collaborators}
    (line : string) (rest : list string) (st : Session) :
  line = EmptyString \/ (exists s : string, line = String SPACE s) ->
  command_loop (line :: rest) st
  = (Return tt, st, [Recv line; LogError "unknown request: %r" line]).
Proof.
  intros B. apply command_loop_unknown.
  rewrite (command_of_blank _ B). cbn.
  intros F. repeat (destruct F as [F|F]; [discriminate F|]). exact F.
Qed.

Lemma blank_line_ends_session_witness :
  command_loop (collab := double) (" GETINFO" :: ["GETINFO"]) fresh
  = (Return tt, fresh, [Recv " GETINFO"; LogError "unknown request: %r" " GETINFO"]).
Proof.
  exact (@blank_line_ends_session double " GETINFO" ["GETINFO"] fresh
           (or_intror (ex_intro _ "GETINFO" eq_refl))).
Defined.

(** X18: the arguments are counted by the spaces of the line: a SIGKEY
    line is acknowledged exactly when it holds one space, a SETHASH line
    exactly when it holds two; a doubled or trailing space is one
    argument more. *)
Theorem arity_is_space_count {collab : Collaborators} (line : string) (st : Session) :
  (command_of line = "SIGKEY" ->
   (outcome (handle_line line st) = Return true <-> occurrences SPACE line = 1)) /\
  (command_of line = "SETHASH" ->
   (outcome (handle_line line st) = Return true <-> occurrences SPACE line = 2)).
Proof.
  destruct (command_of_split line) as [args Hs].
  rewrite <- (args_length _ _ Hs).
  split; intros C; rewrite C in Hs.
  - now apply handle_line_SIGKEY.
  - now apply handle_line_SETHASH.
Qed.

Lemma arity_is_space_count_witness :
  command_of "SIGKEY ABCD " = "SIGKEY" /\
  occurrences SPACE "SIGKEY ABCD " <> 1 /\
  outcome (handle_line (collab := double) "SIGKEY ABCD " fresh) <> Return true.
Proof.
  assert (C : command_of "SIGKEY ABCD " = "SIGKEY") by reflexivity.
  assert (N : occurrences SPACE "SIGKEY ABCD " <> 1) by discriminate.
  split; [exact C|]. split; [exact N|].
  intros O. apply N.
  exact (proj1 (proj1 (@arity_is_space_count double "SIGKEY ABCD " fresh) C) O).
Defined.

Section ExchangeFacts.
Context {collab : Collaborators}.

Lemma split_clean (sep : ascii) (s : string) :
  occurrences sep s = 0 -> split sep s = [s].
Proof.
  induction s as [|c rest IH]; [reflexivity|].
  cbn [occurrences split].
  destruct (Ascii.eqb c sep); [discriminate|].
  intros H. now rewrite (IH H).
Qed.

Lemma split_app_sep (sep : ascii) (a b : string) :
  split sep (a ++ String sep b) = split sep a ++ split sep b.
Proof.
  induction a as [|c a IH].
  - cbn [append split]. now rewrite Ascii.eqb_refl.
  - change (String c a ++ String sep b)%string with (String c (a ++ String sep b)%string).
    cbn [split]. rewrite IH.
    destruct (Ascii.eqb c sep); [reflexivity|].
    pose proof (split_nonempty sep a) as N.
    now destruct (split sep a) as [|w ws].
Qed.

Lemma hex_value_not_space (c : ascii) (x : N) :
  hex_value c = Some x -> Ascii.eqb c SPACE = false.
Proof.
  destruct (Ascii.eqb_spec c SPACE) as [->|_]; [discriminate|reflexivity].
Qed.

(** What decodes as hexadecimal holds no space. *)
Lemma unhexlify_no_space :
  forall (h out : string), unhexlify h = Some out -> occurrences SPACE h = 0.
Proof.
  fix IH 1. intros [|a [|b rest]] out; cbn [unhexlify occurrences].
  - reflexivity.
  - discriminate.
  - destruct (hex_value a) as [x|] eqn:A; [|discriminate].
    destruct (hex_value b) as [y|] eqn:B; [|discriminate].
    destruct (unhexlify rest) as [o|] eqn:R; [|discriminate].
    intros _.
    now rewrite (hex_value_not_space _ _ A), (hex_value_not_space _ _ B), (IH _ _ R).
Qed.

Lemma split_SIGKEY (k : string) :
  occurrences SPACE k = 0 ->
  split SPACE ("SIGKEY " ++ k) = ["SIGKEY"; k].
Proof.
  intros H.
  change ("SIGKEY " ++ k)%string with ("SIGKEY" ++ String SPACE k)%string.
  now rewrite split_app_sep, (split_clean _ _ H).
Qed.

Lemma split_SETHASH (a d : string) :
  occurrences SPACE a = 0 -> occurrences SPACE d = 0 ->
  split SPACE ("SETHASH " ++ a ++ String SPACE d) = ["SETHASH"; a; d].
Proof.
  intros Ha Hd.
  change ("SETHASH " ++ a ++ String SPACE d)%string
    with ("SETHASH" ++ String SPACE (a ++ String SPACE d))%string.
  now rewrite !split_app_sep, (split_clean _ _ Ha), (split_clean _ _ Hd).
Qed.

(** A [pksign] whose every step succeeds. *)
Lemma pksign_success {S} (st : S) (k d grip raw : string) (f : Factory) (rs : N * N) :
  fst resolve_default = Return f ->
  unhexlify k = Some grip -> grip = factory_keygrip f ->
  unhexlify d = Some raw ->
  conn_sign f raw = Return rs ->
  pksign (Some k) (Some d) (Some "8") st
  = (Return (sig_encode (fst rs) (snd rs)), st,
     snd resolve_default
       ++ [Sign raw; LogDebug "result: %r" (sig_encode (fst rs) (snd rs))]
       ++ [CloseFactory]).
Proof.
  intros F K G D C. rewrite pksign_cases. cbn [is_str String.eqb Ascii.eqb Bool.eqb].
  destruct resolve_default as [[f'|e] t]; cbn [fst snd] in *; [|discriminate F].
  injection F as ->.
  rewrite sign_block_cases. cbn [decoded]. rewrite K, <- G, String.eqb_refl, D, C.
  reflexivity.
Qed.

(** The digests signed in a round, by what the session holds. *)
Lemma handle_line_signed (line : string) (st : Session) :
  keygrip st = None \/ algo st = None ->
  signed (events (handle_line line st)) = [].
Proof.
  intros H.
  destruct (split SPACE line) as [|command args] eqn:Hs;
    [now apply split_nonempty in Hs|].
  rewrite (handle_line_split _ _ _ _ Hs).
  assert (D : signed (events (dispatch line command args st)) = []).
  { destruct (recognized_dec command) as [R|U].
    - apply recognized_cases in R as [N|[->|[->|[->|[->| ->]]]]].
      + now rewrite (dispatch_noop _ _ _ _ N).
      + reflexivity.
      + reflexivity.
      + rewrite dispatch_SIGKEY. now destruct args as [|k [|k' args]].
      + rewrite dispatch_SETHASH. now destruct args as [|a [|x [|y args]]].
      + rewrite dispatch_PKSIGN, pksign_cases.
        destruct H as [H|H]; rewrite H.
        * destruct (is_str (algo st) "8"); [|reflexivity].
          pose proof resolve_default_quiet as [_ Q].
          destruct resolve_default as [[f|e] t]; cbn [snd] in Q; [|exact Q].
          rewrite sign_block_cases. cbn [decoded events snd].
          now rewrite signed_app, Q.
        * reflexivity.
    - now rewrite (dispatch_unknown _ _ _ _ U). }
  destruct (dispatch line command args st) as [[[[|]|e] st'] t];
    cbn [events snd] in *; rewrite ?signed_app, D; reflexivity.
Qed.

Lemma handle_line_keeps_unset (line : string) (st : Session) :
  (command_of line <> "SIGKEY" -> keygrip st = None ->
   keygrip (locals (handle_line line st)) = None) /\
  (command_of line <> "SETHASH" -> algo st = None ->
   algo (locals (handle_line line st)) = None).
Proof.
  unfold command_of.
  destruct (split SPACE line) as [|command args] eqn:Hs;
    [now apply split_nonempty in Hs|].
  cbn [hd]. rewrite (handle_line_split _ _ _ _ Hs).
  pose proof (dispatch_locals line command args st) as L.
  assert (K : (command <> "SIGKEY" -> keygrip st = None ->
               keygrip (locals (dispatch line command args st)) = None) /\
              (command <> "SETHASH" -> algo st = None ->
               algo (locals (dispatch line command args st)) = None)).
  { destruct L as [->|[_ ->]]; [now split|].
    unfold stage_parts. split; intros N U.
    - destruct (String.eqb_spec command "SIGKEY") as [E|_]; [now contradiction N|].
      destruct (String.eqb command "SETHASH"); [|exact U].
      now destruct args as [|a [|d [|x args]]].
    - destruct (String.eqb_spec command "SIGKEY") as [_|_].
      + now destruct args as [|k [|k' args]].
      + destruct (String.eqb_spec command "SETHASH") as [E|_];
          [now contradiction N|exact U]. }
  now destruct (dispatch line command args st) as [[[[|]|e] st'] t].
Qed.

Lemma command_loop_signed (conn : connection) (st : Session) :
  (keygrip st = None /\ forall l, In l conn -> command_of l <> "SIGKEY") \/
  (algo st = None /\ forall l, In l conn -> command_of l <> "SETHASH") ->
  signed (events (command_loop conn st)) = [].
Proof.
  revert st. induction conn as [|line rest IH]; intros st H; [reflexivity|].
  rewrite command_loop_step.
  assert (S0 : signed (events (handle_line line st)) = []).
  { apply handle_line_signed. destruct H as [[H _]|[H _]]; auto. }
  pose proof (handle_line_keeps_unset line st) as [Kk Ka].
  destruct (handle_line line st) as [[[[|]|e] st'] t]; cbn [events locals fst snd] in *.
  - assert (H' : (keygrip st' = None /\ forall l, In l rest -> command_of l <> "SIGKEY") \/
                 (algo st' = None /\ forall l, In l rest -> command_of l <> "SETHASH")).
    { destruct H as [[U N]|[U N]]; [left|right];
        (split; [|intros l Hl; apply N; now right]).
      - apply Kk; [apply N; now left|exact U].
      - apply Ka; [apply N; now left|exact U]. }
    specialize (IH st' H').
    destruct (command_loop rest st') as [[r st''] t']. cbn [events snd signed] in *.
    now rewrite signed_app, S0, IH.
  - cbn [signed]. now rewrite signed_app, S0.
  - exact S0.
Qed.

End ExchangeFacts.

(** X19: the whole exchange: when the default key resolves, the named
    keygrip is the hexadecimal form of its keygrip, the digest is
    hexadecimal and the device signs it, then SIGKEY, SETHASH 8 and PKSIGN
    are answered by OK, OK, and the data line with the encoded signature
    followed by OK; the device was asked once, for the decoded digest. *)
Theorem signing_exchange {collab : Collaborators}
    (k d raw : string) (f : Factory) (rs : N * N) :
  fst resolve_default = Return f ->
  unhexlify k = Some (factory_keygrip f) ->
  unhexlify d = Some raw ->
  conn_sign f raw = Return rs ->
  let run := handle_connection ["SIGKEY " ++ k; "SETHASH 8 " ++ d; "PKSIGN"]%string in
  outcome run = Raise EOFError /\
  locals run = mkSession (Some k) (Some d) (Some "8") /\
  sent (events run)
  = [OK; OK; OK; ("D " ++ sig_encode (fst rs) (snd rs))%string; OK] /\
  signed (events run) = [raw].
Proof.
  intros F K D C.
  pose proof (split_SIGKEY k (unhexlify_no_space _ _ K)) as S1.
  pose proof (split_SETHASH "8" d eq_refl (unhexlify_no_space _ _ D)) as S2.
  assert (S3 : split SPACE "PKSIGN" = ["PKSIGN"]) by reflexivity.
  pose proof resolve_default_quiet as [_ Q].
  pose proof resolve_default_backend as B.
  set (st1 := mkSession (Some k) None None).
  set (st2 := mkSession (Some k) (Some d) (Some "8")).
  set (sig := sig_encode (fst rs) (snd rs)).
  set (t3 := snd resolve_default ++ [Sign raw; LogDebug "result: %r" sig] ++ [CloseFactory]).
  assert (H1 : handle_line ("SIGKEY " ++ k) fresh = (Return true, st1, [] ++ [Send OK]))
    by now rewrite (handle_line_split _ _ _ _ S1), dispatch_SIGKEY.
  assert (H2 : handle_line ("SETHASH " ++ "8" ++ String SPACE d) st1
               = (Return true, st2, [] ++ [Send OK]))
    by now rewrite (handle_line_split _ _ _ _ S2), dispatch_SETHASH.
  assert (H3 : handle_line "PKSIGN" st2
               = (Return true, st2, (t3 ++ [Send ("D " ++ sig)]) ++ [Send OK])).
  { rewrite (handle_line_split _ _ _ _ S3), dispatch_PKSIGN.
    unfold st2 at 1 2 3. cbn [keygrip digest algo].
    now rewrite (pksign_success _ k d _ raw f rs F K eq_refl D C). }
  assert (A : acknowledged ["SIGKEY " ++ k; "SETHASH " ++ "8" ++ String SPACE d; "PKSIGN"]%string
                fresh
              = Some (st2,
                      Recv ("SIGKEY " ++ k) :: ([] ++ [Send OK])
                        ++ Recv ("SETHASH " ++ "8" ++ String SPACE d) :: ([] ++ [Send OK])
                        ++ Recv "PKSIGN" :: ((t3 ++ [Send ("D " ++ sig)]) ++ [Send OK])
                        ++ [])).
  { cbn [acknowledged]. now rewrite H1, H2, H3. }
  cbv zeta.
  change ["SIGKEY " ++ k; "SETHASH 8 " ++ d; "PKSIGN"]%string
    with (["SIGKEY " ++ k; "SETHASH " ++ "8" ++ String SPACE d; "PKSIGN"]%string ++ []).
  rewrite (handle_connection_after _ _ _ _ A).
  cbn [command_loop]. unfold bind, emit, raise.
  cbn [outcome locals events fst snd app].
  split; [reflexivity|]. split; [reflexivity|]. split.
  - cbn [sent]. rewrite !sent_app. unfold t3.
    rewrite !sent_app, (backend_sent _ B). reflexivity.
  - cbn [signed]. rewrite !signed_app. unfold t3.
    rewrite !signed_app, Q. reflexivity.
Qed.

Lemma signing_exchange_witness :
  fst (resolve_default (collab := double)) = Return "blob" /\
  unhexlify "abcd" = Some grip_abcd /\
  unhexlify "00ff" = Some (String NUL (String (ascii_of_N 255) EmptyString)) /\
  sent (events (handle_connection (collab := double)
                  ["SIGKEY abcd"; "SETHASH 8 00ff"; "PKSIGN"]))
  = [OK; OK; OK; ("D " ++ sig_encode 1 2)%string; OK].
Proof.
  assert (F : fst (resolve_default (collab := double)) = Return "blob") by reflexivity.
  assert (K : unhexlify "abcd" = Some grip_abcd) by reflexivity.
  assert (D : unhexlify "00ff" = Some (String NUL (String (ascii_of_N 255) EmptyString)))
    by reflexivity.
  split; [exact F|]. split; [exact K|]. split; [exact D|].
  exact (proj1 (proj2 (proj2 (@signing_exchange double "abcd" "00ff" _ "blob" (1%N, 2%N)
                                F K D eq_refl)))).
Defined.

(** X20: in a session without a SIGKEY line the device is never asked to
    sign, and neither is it in a session without a SETHASH line, whatever
    else the client sends. *)
Theorem nothing_staged_nothing_signed {collab : Collaborators} (conn : connection) :
  (forall l, In l conn -> command_of l <> "SIGKEY") \/
  (forall l, In l conn -> command_of l <> "SETHASH") ->
  signed (events (handle_connection conn)) = [].
Proof.
  intros H.
  assert (S0 : signed (events (command_loop conn fresh)) = []).
  { apply command_loop_signed. destruct H as [H|H]; [left|right]; now split. }
  unfold handle_connection, bind, sendall, emit. fold fresh.
  destruct (command_loop conn fresh) as [[r st] t]. exact S0.
Qed.

Lemma nothing_staged_nothing_signed_witness :
  (forall l, In l ["SETHASH 8 00FF"; "PKSIGN"; "GETINFO"] -> command_of l <> "SIGKEY") /\
  signed (events (handle_connection (collab := double)
                    ["SETHASH 8 00FF"; "PKSIGN"; "GETINFO"])) = [].
Proof.
  assert (H : forall l, In l ["SETHASH 8 00FF"; "PKSIGN"; "GETINFO"] ->
                        command_of l <> "SIGKEY").
  { intros l [<-|[<-|[<-|[]]]]; discriminate. }
  split; [exact H|].
  exact (@nothing_staged_nothing_signed double _ (or_introl H)).
Defined.

(** ** The rounds of a connection *)

Section TerminalOK.
Context {collab : Collaborators}.







(** A round cannot both run to its end and fail. *)
Lemma completes_not_fails (command : string) (args : list string) (st : Session) :
  completes command args st -> ~ fails command args st.
Proof.
  intros C F.
  destruct F as [[-> L]|[[-> L]|[-> [e P]]]];
    destruct C as [N|[E|[E|[[E L']|[[E L']|[E [sig P']]]]]]];
    try discriminate E;
    try (destruct N as [E|[E|[E|[E|[]]]]]; discriminate E);
    try (now contradiction L).
  rewrite P in P'. discriminate P'.
Qed.




End TerminalOK.



